(** * Blendyn: log ingestion, label resolution and motion interpolation

    A shallow embedding of the parts of [baselib.py] and [beamlib.py] that
    build the entity registry from an MBDyn [.log] file, annotate it with
    string labels, and interpolate sampled motion between two output
    time steps.

    Conventions of the embedding:
    - Python strings are [string]; the rows produced by
      [csv.reader(..., delimiter=' ', skipinitialspace=True)] are
      [list (list string)], one list of tokens per line;
    - an uncaught Python exception is [None] in an [option] result;
    - Blender collections ([mbs.nodes], [mbs.elems]) are lists in
      collection order, looked up by their [name] field (first match). *)

From Stdlib Require Import List String Ascii ZArith Bool Lia.
From Stdlib Require Import QArith Qround.
From Stdlib Require Import Reals Qreals Lra Psatz.
Import ListNotations.

Local Open Scope string_scope.

(* ------------------------------------------------------------------ *)
(** ** Python string primitives *)

Module PyStr.

Local Open Scope Z_scope.

(** [s[-1]]: the last character; [IndexError] on the empty string. *)
Fixpoint last_char (s : string) : option ascii :=
  match s with
  | EmptyString => None
  | String c EmptyString => Some c
  | String _ s' => last_char s'
  end.

(** [s[:-1]]: everything but the last character. *)
Fixpoint drop_last (s : string) : string :=
  match s with
  | EmptyString => EmptyString
  | String _ EmptyString => EmptyString
  | String c s' => String c (drop_last s')
  end.

(** Python slice [s[i:j]] with negative indices counted from the end and
    bounds clipped to the string. *)
Definition slice_index (len i : Z) : Z :=
  if i <? 0 then Z.max 0 (len + i) else Z.min i len.

Definition py_slice (s : string) (i j : Z) : string :=
  let len := Z.of_nat (String.length s) in
  let a := slice_index len i in
  let b := slice_index len j in
  if a <? b then substring (Z.to_nat a) (Z.to_nat (b - a)) s else EmptyString.

(** [s[i:]] *)
Definition py_slice_from (s : string) (i : Z) : string :=
  py_slice s i (Z.of_nat (String.length s)).

(** [s.find(c)]: first index of [c], or -1. *)
Fixpoint find_char_from (c : ascii) (s : string) (k : Z) : Z :=
  match s with
  | EmptyString => -1
  | String d s' => if Ascii.eqb c d then k else find_char_from c s' (k + 1)
  end.

Definition py_find (s : string) (c : ascii) : Z := find_char_from c s 0.

(** [sub in s] *)
Definition py_contains (sub s : string) : bool :=
  match String.index 0 sub s with Some _ => true | None => false end.

(** [str.isspace] on one character (the characters of code below 256
    that Python treats as whitespace). *)
Definition is_space (c : ascii) : bool :=
  let n := nat_of_ascii c in
  (Nat.leb 9 n && Nat.leb n 13) || (Nat.leb 28 n && Nat.leb n 32)
  || Nat.eqb n 133 || Nat.eqb n 160.

Fixpoint lstrip (s : string) : string :=
  match s with
  | String c s' => if is_space c then lstrip s' else s
  | EmptyString => EmptyString
  end.

Definition string_rev (s : string) : string :=
  string_of_list_ascii (rev (list_ascii_of_string s)).

(** [s.rstrip()] and [s.strip()] *)
Definition rstrip (s : string) : string := string_rev (lstrip (string_rev s)).
Definition strip (s : string) : string := rstrip (lstrip s).

Definition digit_val (c : ascii) : option Z :=
  let n := nat_of_ascii c in
  if Nat.leb 48 n && Nat.leb n 57 then Some (Z.of_nat n - 48) else None.

(** The digit string of [int()]: digits, single underscores allowed
    between two digits.  [prev_digit] says whether the previous character
    was a digit. *)
Fixpoint parse_digits (s : string) (acc : Z) (prev_digit : bool) : option Z :=
  match s with
  | EmptyString => if prev_digit then Some acc else None
  | String c s' =>
      match digit_val c with
      | Some d => parse_digits s' (10 * acc + d) true
      | None =>
          if Ascii.eqb c "_"%char && prev_digit then
            match s' with
            | String c2 _ =>
                match digit_val c2 with
                | Some _ => parse_digits s' acc false
                | None => None
                end
            | EmptyString => None
            end
          else None
      end
  end.

(** [int(s)] on a base-10 string; [None] is [ValueError]. *)
Definition py_int (s : string) : option Z :=
  match strip s with
  | String c s' =>
      if Ascii.eqb c "-"%char then option_map Z.opp (parse_digits s' 0 false)
      else if Ascii.eqb c "+"%char then parse_digits s' 0 false
      else parse_digits (String c s') 0 false
  | EmptyString => None
  end.

(** [l[i]] on a Python list: [IndexError] out of range. *)
Definition py_index {A} (l : list A) (i : nat) : option A := nth_error l i.

(** [l[i] = v] on a Python list: [IndexError] out of range. *)
Fixpoint py_set {A} (l : list A) (i : nat) (v : A) : option (list A) :=
  match l, i with
  | [], _ => None
  | _ :: t, O => Some (v :: t)
  | h :: t, S i' => option_map (cons h) (py_set t i' v)
  end.

(** [str(n)] for an integer *)
Fixpoint nat_digits (fuel n : nat) (acc : string) : string :=
  match fuel with
  | O => acc
  | S f =>
      let d := ascii_of_nat (48 + n mod 10) in
      if Nat.ltb n 10 then String d acc
      else nat_digits f (n / 10) (String d acc)
  end.

Definition py_str_Z (z : Z) : string :=
  let s := nat_digits (S (Z.to_nat (Z.abs z))) (Z.to_nat (Z.abs z)) EmptyString in
  if z <? 0 then String "-"%char s else s.

End PyStr.

Import PyStr.

(* ------------------------------------------------------------------ *)
(** ** Entity registry *)

(** An entry of [mbs.nodes]. *)
Record node := mkNode {
  node_name : string;              (* collection key, ['node_' + label] *)
  node_int_label : Z;
  node_string_label : string;
  node_parametrization : string;
  node_output : bool;
  node_blender_object : string;
  node_is_imported : bool
}.

(** An entry of [mbs.elems] (the fields the beam parsers write). *)
Record elem := mkElem {
  elem_name : string;
  elem_type : string;
  elem_mbclass : string;
  elem_int_label : Z;
  elem_string_label : string;
  elem_nodes : list Z;             (* [el.nodes[k].int_label] *)
  elem_offsets : list (Q * Q * Q); (* [el.offsets[k].value] *)
  elem_blender_object : string;
  elem_is_imported : bool
}.

Record registry := mkRegistry { nd : list node; ed : list elem }.

(** [coll[name]]: the first entry with that name; [KeyError] is [None]. *)
Definition find_node (name : string) (l : list node) : option node :=
  find (fun n => String.eqb (node_name n) name) l.

Definition find_elem (name : string) (l : list elem) : option elem :=
  find (fun e => String.eqb (elem_name e) name) l.

Definition set_node_imported (b : bool) (n : node) : node :=
  {| node_name := node_name n; node_int_label := node_int_label n;
     node_string_label := node_string_label n;
     node_parametrization := node_parametrization n;
     node_output := node_output n;
     node_blender_object := node_blender_object n; node_is_imported := b |}.

Definition set_elem_imported (b : bool) (e : elem) : elem :=
  {| elem_name := elem_name e; elem_type := elem_type e;
     elem_mbclass := elem_mbclass e; elem_int_label := elem_int_label e;
     elem_string_label := elem_string_label e; elem_nodes := elem_nodes e;
     elem_offsets := elem_offsets e;
     elem_blender_object := elem_blender_object e; elem_is_imported := b |}.

(* ------------------------------------------------------------------ *)
(** ** The declaration scan of [parse_log_file] *)

Module LogParser.

(** What the body of the declaration loop does with one row. *)
Inductive decl_kind :=
| SkipRow                  (* "row does not contain an element definition" *)
| NodeDecl                 (* handed to [parse_node] *)
| ElemDecl (kind : string) (* handed to [parse_elements] with [entry[:-1]] *)
.

(** The inner loop
<<
    while (rw[ii][-1] != ':') and (ii < min(3, (len(rw) - 1))):
        ii = ii + 1
        entry = entry + " " + rw[ii]
>>
    [cur] is [rw[ii]], [rest] the tokens after it; [None] is the
    [IndexError] of [rw[ii][-1]] on an empty token. *)
Fixpoint tag_loop (cur : string) (rest : list string) (ii bound : nat)
    (entry : string) : option (string * nat) :=
  match last_char cur with
  | None => None
  | Some c =>
      if Ascii.eqb c ":"%char then Some (entry, ii)
      else if Nat.ltb ii bound then
        match rest with
        | h :: t => tag_loop h t (S ii) bound (entry ++ " " ++ h)
        | [] => None
        end
      else Some (entry, ii)
  end.

(** One iteration of the declaration loop up to the dispatch: the new
    value of [entry] and what is done with the row.  [None] is the
    [IndexError] of [rw[0]] on an empty row or of [rw[ii][-1]]. *)
Definition classify_record (rw : list string) : option (string * decl_kind) :=
  match rw with
  | [] => None
  | t0 :: rest =>
      let bound := Nat.min 3 (List.length rw - 1) in
      match tag_loop t0 rest 0 bound t0 with
      | None => None
      | Some (entry, ii) =>
          Some (entry,
                if Nat.eqb ii bound then SkipRow
                else if String.eqb entry "structural node:" then NodeDecl
                else ElemDecl (drop_last entry))
      end
  end.

(** The value a node sub-parser returns: a boolean (entity found and
    updated / newly created) or the empty dict [{}] that signals an
    unsupported rotation parametrization. *)
Inductive parse_node_ret := PNBool (b : bool) | PNEmptyDict.

(** Modelled from the spec: [parse_node] of [nodelib.py], which is not
    among the sources.  Section 4.1 of the spec: the node sub-parser
    "returns false when it had to create a brand-new entity, true when it
    found and updated an existing entity", an entity is "updated in place
    on re-import (never recreated if the label matches)", its
    "imported this pass" flag is set when it is re-encountered, and the
    rotation parametrizations are restricted to {PHI, three fixed Euler
    sequences, MATRIX}, a 3-1-3 sequence being unsupported; the comment in
    [parse_log_file] says [parse_node] then "exits with a {}".  The row
    layout is the one of the MBDyn log:
    [structural node: <label> <x> <y> <z> <parametrization> ...]. *)
Definition supported_parametrization (tok : string) : option string :=
  if String.eqb tok "phi" then Some "PHI"
  else if String.eqb tok "euler123" then Some "EULER123"
  else if String.eqb tok "euler132" then Some "EULER132"
  else if String.eqb tok "euler321" then Some "EULER321"
  else if String.eqb tok "mat" then Some "MATRIX"
  else None.

(** Modelled from the spec: the update/creation part of [parse_node]. *)
Definition update_node (par : string) (n : node) : node :=
  {| node_name := node_name n; node_int_label := node_int_label n;
     node_string_label := node_string_label n;
     node_parametrization := par; node_output := node_output n;
     node_blender_object := node_blender_object n;
     node_is_imported := true |}.

(** Modelled from the spec: [parse_node(context, rw)] on the node list. *)
Definition parse_node (rw : list string) (nodes : list node)
    : option (parse_node_ret * list node) :=
  match py_index rw 2, py_index rw 6 with
  | Some lbl, Some ptok =>
      match supported_parametrization ptok with
      | None => Some (PNEmptyDict, nodes)
      | Some par =>
          match py_int lbl with
          | None => None
          | Some z =>
              let name := "node_" ++ lbl in
              match find_node name nodes with
              | Some _ =>
                  Some (PNBool true,
                        map (fun n => if String.eqb (node_name n) name
                                      then update_node par n else n) nodes)
              | None =>
                  Some (PNBool false,
                        List.app nodes [{| node_name := name; node_int_label := z;
                                     node_string_label := "none";
                                     node_parametrization := par;
                                     node_output := false;
                                     node_blender_object := "none";
                                     node_is_imported := true |}])
              end
          end
      end
  | _, _ => None
  end.

(** How the declaration loop ends. *)
Inductive scan_outcome :=
| ScanSymbolTable (r : registry) (bn be : bool) (* [while] condition false *)
| ScanEOF (r : registry)                        (* [StopIteration] *)
| ScanRotError (r : registry)                   (* [TypeError] from [* {}] *)
| ScanCrash.                                    (* exception not caught *)

Section Scan.

(** [parse_elements(context, kind, rw)] of [elementlib.py] (not among the
    sources): dispatches on the registered kind name.  The scan is stated
    for any element sub-parser; [None] is an exception it raises. *)
Variable parse_elements : string -> list string -> list elem -> option (bool * list elem).

(** The declaration loop
<<
    while entry[:-1] != "Symbol table":
        rw = next(reader)
        ...
>>
    with the consistency accumulators [b_nodes_consistent] ([bn]) and
    [b_elems_consistent] ([be]). *)
Fixpoint scan (rows : list (list string)) (entry : string) (r : registry)
    (bn be : bool) : scan_outcome :=
  if String.eqb (drop_last entry) "Symbol table" then ScanSymbolTable r bn be
  else
    match rows with
    | [] => ScanEOF r
    | rw :: rows' =>
        match classify_record rw with
        | None => ScanCrash
        | Some (entry', SkipRow) => scan rows' entry' r bn be
        | Some (entry', NodeDecl) =>
            match parse_node rw (nd r) with
            | None => ScanCrash
            | Some (PNEmptyDict, _) => ScanRotError r
            | Some (PNBool b, nodes') =>
                scan rows' entry' (mkRegistry nodes' (ed r)) (bn && b) be
            end
        | Some (entry', ElemDecl kind) =>
            match parse_elements kind rw (ed r) with
            | None => ScanCrash
            | Some (b, elems') =>
                scan rows' entry' (mkRegistry (nd r) elems') bn (be && b)
            end
        end
    end.

End Scan.

(** The status sets returned by [parse_log_file]; [StatusEmpty] is the
    initial [{''}]. *)
Inductive status :=
| FINISHED | MODEL_INCONSISTENT | NODES_INCONSISTENT | ELEMS_INCONSISTENT
| LOG_NOT_FOUND | ROTATION_ERROR | NODES_NOT_FOUND | OUT_NOT_FOUND
| StatusEmpty.

(** The classification after a complete declaration scan. *)
Definition consistency_status (is_init_nd is_init_ed bn be : bool) : status :=
  if (is_init_nd && is_init_ed) || (bn && be) then FINISHED
  else if (negb bn && negb is_init_nd) && (negb be && negb is_init_ed)
  then MODEL_INCONSISTENT
  else if (negb bn && negb is_init_nd) && be then NODES_INCONSISTENT
  else if bn && (negb be && negb is_init_ed) then ELEMS_INCONSISTENT
  else FINISHED.

(** [int(rw[0])] *)
Definition row_label (rw : list string) : option Z :=
  match rw with [] => None | t :: _ => py_int t end.

(** [node[0].output = True] for the first node with that integer label. *)
Fixpoint mark_output (l : Z) (nodes : list node) : list node :=
  match nodes with
  | [] => []
  | n :: t =>
      if Z.eqb (node_int_label n) l then
        {| node_name := node_name n; node_int_label := node_int_label n;
           node_string_label := node_string_label n;
           node_parametrization := node_parametrization n;
           node_output := true; node_blender_object := node_blender_object n;
           node_is_imported := node_is_imported n |} :: t
      else n :: mark_output l t
  end.

(** The [while True] loop of [no_output] on the [.mov] rows; [cur] is
    [int(rw[0])] of the current row. *)
Fixpoint no_output_loop (cur first : Z) (rows : list (list string))
    (nodes : list node) : option (list node) :=
  let nodes' := mark_output cur nodes in
  match rows with
  | [] => Some nodes'                       (* StopIteration: caught *)
  | rw :: rows' =>
      match row_label rw with
      | None => None
      | Some l => if Z.eqb l first then Some nodes'
                  else no_output_loop l first rows' nodes'
      end
  end.

(** [no_output(context)], text branch; [None] for the [.mov] file is the
    uncaught error of [open]. *)
Definition no_output_mov (mov : option (list (list string))) (nodes : list node)
    : option (list node) :=
  match mov with
  | None => None
  | Some [] => Some nodes
  | Some (rw :: rows) =>
      match row_label rw with
      | None => None
      | Some f => no_output_loop f f rows nodes
      end
  end.

(** [mark_output] for each label of [ls] in turn. *)
Definition mark_all (ls : list Z) (ns : list node) : list node :=
  fold_left (fun acc l => mark_output l acc) ls ns.

(** [no_output(context)], NetCDF branch: [has_X l] says whether the
    dataset has the variable ['node.struct.<l>.X']. *)
Definition no_output_nc (has_X : Z -> bool) (nodes : list node)
    : option (list node) :=
  fold_left
    (fun acc n =>
       match acc, py_int (py_slice_from (node_name n) 5) with
       | Some ns, Some l =>
           if has_X l then
             match find_node ("node_" ++ py_str_Z l) ns with
             | Some _ => Some (mark_output l ns)
             | None => Some ns             (* KeyError: caught *)
             end
           else Some ns
       | _, _ => None
       end) nodes (Some nodes).

(** The contents of the [.out] file as [parse_log_file] sees it. *)
Inductive out_file :=
| OutNotFound                         (* FileNotFoundError *)
| OutIOError                          (* any other IOError *)
| OutRows (rows : list (list string)).

(** Everything [parse_log_file] reads besides the registry. *)
Record import_input := mkInput {
  in_log : option (list (list string));  (* [None]: the [.log] cannot be opened *)
  in_mov : option (list (list string));  (* the [.mov] file, text backend *)
  in_out : out_file;
  in_use_netcdf : bool;
  in_num_rows : Z;                       (* [mbs.num_rows], from [setup_import] *)
  in_nc_time_len : Z;                    (* [len(nc.variables["time"])] *)
  in_nc_has_X : Z -> bool
}.

(** The same input with another [mbs.num_rows]. *)
Definition with_num_rows (k : Z) (inp : import_input) : import_input :=
  mkInput (in_log inp) (in_mov inp) (in_out inp) (in_use_netcdf inp) k
          (in_nc_time_len inp) (in_nc_has_X inp).

(** What [parse_log_file] leaves behind. *)
Record import_result := mkResult {
  res_status : status;                   (* [ret_val] *)
  res_obj_names : list string;           (* visual bindings to remove *)
  res_registry : registry;
  res_num_nodes : option Z;              (* [mbs.num_nodes] when written *)
  res_num_timesteps : option Z           (* [mbs.num_timesteps] when written *)
}.

Section Pass.

Variable parse_elements : string -> list string -> list elem -> option (bool * list elem).

(** [float(s)], Python's builtin; [None] is [ValueError]. *)
Variable py_float : string -> option Q.

(** The [.out] loop: [Some (Some ts)] when a ['Step'] row and the time
    step below it are found, [Some None] on [StopIteration], [None] on an
    uncaught [IndexError] or [ValueError]. *)
Fixpoint out_scan (rows : list (list string)) : option (option Q) :=
  match rows with
  | [] => Some None
  | rw :: rows' =>
      match rw with
      | [] => None
      | t :: _ =>
          if String.eqb t "Step" then
            match rows' with
            | [] => Some None
            | rw2 :: _ =>
                match py_index rw2 3 with
                | None => None
                | Some tok => option_map Some (py_float tok)
                end
            end
          else out_scan rows'
      end
  end.

(** The try-block around the declaration loop: the value of [ret_val]
    after it, and the registry.  [None] is an exception that escapes. *)
Definition parse_log_try (inp : import_input) (is_init_nd is_init_ed : bool)
    (r : registry) : option (status * registry) :=
  match in_log inp with
  | None => Some (LOG_NOT_FOUND, r)
  | Some rows =>
      match scan parse_elements rows EmptyString r true true with
      | ScanSymbolTable r' bn be =>
          Some (consistency_status is_init_nd is_init_ed bn be, r')
      | ScanEOF r' => Some (StatusEmpty, r')
      | ScanRotError r' => Some (ROTATION_ERROR, r')
      | ScanCrash => None
      end
  end.

(** [parse_log_file(context)].  The minimum and maximum labels, the
    times read from the files and the reference frames of the [.rfm] file
    ([rfmlib.py], not among the sources) are not modelled. *)
Definition parse_log_file (inp : import_input) (r0 : registry)
    : option import_result :=
  let is_init_nd := Nat.eqb (List.length (nd r0)) 0 in
  let is_init_ed := Nat.eqb (List.length (ed r0)) 0 in
  let r1 := mkRegistry (map (set_node_imported false) (nd r0))
                       (map (set_elem_imported false) (ed r0)) in
  match parse_log_try inp is_init_nd is_init_ed r1 with
  | None => None
  | Some (ret0, r2) =>
      let del_nodes := filter (fun n => negb (node_is_imported n)) (nd r2) in
      let del_elems := filter (fun e => negb (elem_is_imported e)) (ed r2) in
      let obj_names :=
        filter (fun s => negb (String.eqb s EmptyString))
               (List.app (map node_blender_object del_nodes)
                         (map elem_blender_object del_elems)) in
      let nn := Z.of_nat (List.length (nd r2)) in
      let post :=
        if Z.eqb nn 0 then Some (NODES_NOT_FOUND, nd r2, None, None)
        else
          let nodes_out :=
            if in_use_netcdf inp then no_output_nc (in_nc_has_X inp) (nd r2)
            else no_output_mov (in_mov inp) (nd r2) in
          match nodes_out with
          | None => None
          | Some ns =>
              if in_use_netcdf inp
              then Some (FINISHED, ns, None, Some (in_nc_time_len inp))
              else Some (FINISHED, ns, Some nn, Some (Z.quot (in_num_rows inp) nn))
          end in
      match post with
      | None => None
      | Some (ret1, nodes3, num_nodes, num_ts) =>
          let reg3 := mkRegistry nodes3 (ed r2) in
          let mk st := Some (mkResult st obj_names reg3 num_nodes num_ts) in
          match in_out inp with
          | OutNotFound => mk OUT_NOT_FOUND
          | OutIOError => mk ret1
          | OutRows rows =>
              match out_scan rows with
              | None => None
              (* [nc] is unbound when no node was found *)
              | Some (Some _) =>
                  if in_use_netcdf inp && Z.eqb nn 0 then None else mk ret1
              | Some None => mk ret1
              end
          end
      end
  end.

End Pass.

End LogParser.

(* ------------------------------------------------------------------ *)
(** ** [beamlib.parse_beam3] *)

Module Beam.

Notation "'let?' x ':=' e 'in' f" :=
  (match e with Some x => f | None => None end)
  (at level 200, x name, e at level 100, f at level 200).

Section Beam3.

(** [float(s)], Python's builtin; [None] is [ValueError]. *)
Variable py_float : string -> option Q.

(** [Vector(( float(rw[i]), float(rw[i+1]), float(rw[i+2]) ))] *)
Definition vec_at (rw : list string) (i : nat) : option (Q * Q * Q) :=
  let? a := py_index rw i in
  let? b := py_index rw (i + 1) in
  let? c := py_index rw (i + 2) in
  let? x := py_float a in
  let? y := py_float b in
  let? z := py_float c in
  Some (x, y, z).

(** [int(rw[i])] *)
Definition int_at (rw : list string) (i : nat) : option Z :=
  let? t := py_index rw i in py_int t.

Definition with_nodes_offsets (e : elem) (ns : list Z) (os : list (Q * Q * Q))
    (mbclass : string) (imported : bool) : elem :=
  {| elem_name := elem_name e; elem_type := elem_type e;
     elem_mbclass := mbclass; elem_int_label := elem_int_label e;
     elem_string_label := elem_string_label e; elem_nodes := ns;
     elem_offsets := os; elem_blender_object := elem_blender_object e;
     elem_is_imported := imported |}.

(** The body of the [try] of [parse_beam3] on the element found under
    ['beam3_' + rw[1]], statement by statement. *)
Definition beam3_update (rw : list string) (el : elem) : option elem :=
  let? n0 := int_at rw 2 in
  let? ns := py_set (elem_nodes el) 0 n0 in
  let? n1 := int_at rw 6 in
  let? ns := py_set ns 1 n1 in
  let? n2 := int_at rw 10 in
  let? ns := py_set ns 2 n2 in
  let? v0 := vec_at rw 3 in
  let? os := py_set (elem_offsets el) 0 v0 in
  let? v1 := vec_at rw 7 in
  let? os := py_set os 1 v1 in
  let? v2 := vec_at rw 11 in
  let? os := py_set os 1 v2 in
  Some (with_nodes_offsets el ns os "elem.beam" true).

(** The [except KeyError] branch: a new element appended to [ed].  The
    fields the parser does not write keep the collection defaults
    (taken here as ["none"]). *)
Definition beam3_create (rw : list string) : option elem :=
  let? lbl := int_at rw 1 in
  let? n0 := int_at rw 2 in
  let? v0 := vec_at rw 3 in
  let? n1 := int_at rw 6 in
  let? v1 := vec_at rw 7 in
  let? n2 := int_at rw 10 in
  let? v2 := vec_at rw 11 in
  Some {| elem_name := "beam3" ++ "_" ++ py_str_Z lbl; elem_type := "beam3";
          elem_mbclass := "elem.beam"; elem_int_label := lbl;
          elem_string_label := "none"; elem_nodes := [n0; n1; n2];
          elem_offsets := [v0; v1; v2]; elem_blender_object := "none";
          elem_is_imported := true |}.

(** Replace the first element named [name]. *)
Fixpoint replace_elem (name : string) (e' : elem) (l : list elem) : list elem :=
  match l with
  | [] => []
  | e :: t => if String.eqb (elem_name e) name then e' :: t
              else e :: replace_elem name e' t
  end.

(** [parse_beam3(rw, ed)]: the returned boolean and the new [ed]. *)
Definition parse_beam3 (rw : list string) (elems : list elem)
    : option (bool * list elem) :=
  let? l1 := py_index rw 1 in
  let name := "beam3_" ++ l1 in
  match find_elem name elems with
  | Some el =>
      let? el' := beam3_update rw el in
      Some (true, replace_elem name el' elems)
  | None =>
      let? el := beam3_create rw in
      Some (false, List.app elems [el])
  end.

End Beam3.

Section Beam2.

Variable py_float : string -> option Q.

(** The body of the [try] of [parse_beam2] on the element found under
    ['beam2_' + rw[1]], statement by statement. *)
Definition beam2_update (rw : list string) (el : elem) : option elem :=
  let? n0 := int_at rw 2 in
  let? ns := py_set (elem_nodes el) 0 n0 in
  let? n1 := int_at rw 6 in
  let? ns := py_set ns 1 n1 in
  let? v0 := vec_at py_float rw 3 in
  let? os := py_set (elem_offsets el) 0 v0 in
  let? v1 := vec_at py_float rw 7 in
  let? os := py_set os 1 v1 in
  Some (with_nodes_offsets el ns os "elem.beam" true).

(** The [except KeyError] branch of [parse_beam2]. *)
Definition beam2_create (rw : list string) : option elem :=
  let? lbl := int_at rw 1 in
  let? n0 := int_at rw 2 in
  let? v0 := vec_at py_float rw 3 in
  let? n1 := int_at rw 6 in
  let? v1 := vec_at py_float rw 7 in
  Some {| elem_name := "beam2" ++ "_" ++ py_str_Z lbl; elem_type := "beam2";
          elem_mbclass := "elem.beam"; elem_int_label := lbl;
          elem_string_label := "none"; elem_nodes := [n0; n1];
          elem_offsets := [v0; v1]; elem_blender_object := "none";
          elem_is_imported := true |}.

(** [parse_beam2(rw, ed)]: the returned boolean and the new [ed]. *)
Definition parse_beam2 (rw : list string) (elems : list elem)
    : option (bool * list elem) :=
  let? l1 := py_index rw 1 in
  let name := "beam2_" ++ l1 in
  match find_elem name elems with
  | Some el =>
      let? el' := beam2_update rw el in
      Some (true, replace_elem name el' elems)
  | None =>
      let? el := beam2_create rw in
      Some (false, List.app elems [el])
  end.

End Beam2.

End Beam.

(* ------------------------------------------------------------------ *)
(** ** [assign_labels] *)

(** An entry of [mbs.references]. *)
Record reference := mkRef {
  ref_name : string;
  ref_int_label : Z;
  ref_string_label : string
}.

Module Labels.

(** The attributes [assign_label] reads and writes on an item of any of
    the three collections. *)
Class Labelled (A : Type) := {
  int_label : A -> Z;
  string_label : A -> string;
  set_string_label : string -> A -> A
}.

#[export] Instance node_labelled : Labelled node := {
  int_label := node_int_label;
  string_label := node_string_label;
  set_string_label s n :=
    {| node_name := node_name n; node_int_label := node_int_label n;
       node_string_label := s;
       node_parametrization := node_parametrization n;
       node_output := node_output n;
       node_blender_object := node_blender_object n;
       node_is_imported := node_is_imported n |}
}.

#[export] Instance elem_labelled : Labelled elem := {
  int_label := elem_int_label;
  string_label := elem_string_label;
  set_string_label s e :=
    {| elem_name := elem_name e; elem_type := elem_type e;
       elem_mbclass := elem_mbclass e; elem_int_label := elem_int_label e;
       elem_string_label := s; elem_nodes := elem_nodes e;
       elem_offsets := elem_offsets e;
       elem_blender_object := elem_blender_object e;
       elem_is_imported := elem_is_imported e |}
}.

#[export] Instance ref_labelled : Labelled reference := {
  int_label := ref_int_label;
  string_label := ref_string_label;
  set_string_label s r :=
    {| ref_name := ref_name r; ref_int_label := ref_int_label r;
       ref_string_label := s |}
}.

(** The three collections [nd], [ed], [rd]. *)
Record label_state := mkLS {
  ls_nodes : list node;
  ls_elems : list elem;
  ls_refs : list reference
}.

Inductive label_status := LABELS_UPDATED | NOTHING_DONE | FILE_NOT_FOUND.

Definition set_strings_any : list string := ["  const integer"; "  integer"].

Definition set_strings_node : list string :=
  ["  const integer Node_"; "  integer Node_"; "  const integer node_";
   "  integer node_"; "  const integer NODE_"; "  integer NODE_"].

(** Note the missing comma after ["  integer Joint_"] in the source:
    Python concatenates the two adjacent literals into one entry. *)
Definition set_strings_joint : list string :=
  ["  const integer Joint_"; "  integer Joint_" ++ "  const integer joint_";
   "  integer joint_"; "  const integer JOINT_"; "  integer JOINT_"].

Definition set_strings_beam : list string :=
  ["  const integer Beam_"; "  integer Beam_"; "  const integer beam_";
   "  integer beam_"; "  const integer BEAM_"; "  integer BEAM_"].

Definition set_strings_refs : list string :=
  ["  const integer Ref_"; "  integer Ref_"; "  const integer ref_";
   "  integer ref_"; "  const integer REF_"; "  integer REF_";
   "  const integer Reference_"; "  integer Reference_";
   "  const integer reference_"; "  integer reference_";
   "  const integer REFERENCE_"; "  integer REFERENCE_"].

Section AssignLabel.

Context {A : Type} `{Labelled A}.

(** The [for item in the_dict] loop: the first item with the integer
    label decides; [true] when its string label was rewritten. *)
Fixpoint label_loop (label_int : Z) (label_str : string) (l : list A)
    : bool * list A :=
  match l with
  | [] => (false, [])
  | item :: t =>
      if Z.eqb (int_label item) label_int then
        if negb (String.eqb (string_label item) label_str)
        then (true, set_string_label label_str item :: t)
        else (false, item :: t)
      else let (b, t') := label_loop label_int label_str t in (b, item :: t')
  end.

(** [assign_label(line, entity_type, set_string, the_dict)] with
    [mbs.free_labels] as [free]; [None] is the [ValueError] of [int()]. *)
Definition assign_label (free : bool) (line entity_type set_string : string)
    (the_dict : list A) : option (bool * list A) :=
  let line_str := rstrip line in
  let eq_idx := (py_find line_str "="%char + 1)%Z in
  match py_int (strip (py_slice_from line_str eq_idx)) with
  | None => None
  | Some label_int =>
      let label_str :=
        if free
        then strip (py_slice line_str (Z.of_nat (String.length set_string))
                                      (eq_idx - 1))
        else strip (py_slice line_str
                      (Z.of_nat (String.length set_string)
                       - Z.of_nat (String.length entity_type) - 1)
                      (eq_idx - 1)) in
      Some (label_loop label_int label_str the_dict)
  end%Z.

End AssignLabel.

(** [for set_string in set_strings: if set_string in line: ...; break]:
    the first set string contained in the line. *)
Fixpoint first_match (sets : list string) (line : string) : option string :=
  match sets with
  | [] => None
  | s :: t => if py_contains s line then Some s else first_match t line
  end.

(** The body of [for line in lf] in free-label mode: the line updates the
    three collections in turn. *)
Definition free_line (line : string) (st : label_state)
    : option (bool * label_state) :=
  match first_match set_strings_any line with
  | None => Some (false, st)
  | Some ss =>
      match assign_label true line EmptyString ss (ls_nodes st) with
      | None => None
      | Some (b1, ns) =>
          match assign_label true line EmptyString ss (ls_elems st) with
          | None => None
          | Some (b2, es) =>
              match assign_label true line EmptyString ss (ls_refs st) with
              | None => None
              | Some (b3, rs) => Some (b1 || b2 || b3, mkLS ns es rs)
              end
          end
      end
  end.

(** The body of [for line in lf] in standard mode: node, joint, beam and
    reference patterns, the first family that matches wins. *)
Definition standard_line (line : string) (st : label_state)
    : option (bool * label_state) :=
  match first_match set_strings_node line with
  | Some ss =>
      option_map (fun '(b, ns) => (b, mkLS ns (ls_elems st) (ls_refs st)))
                 (assign_label false line "node" ss (ls_nodes st))
  | None =>
  match first_match set_strings_joint line with
  | Some ss =>
      option_map (fun '(b, es) => (b, mkLS (ls_nodes st) es (ls_refs st)))
                 (assign_label false line "joint" ss (ls_elems st))
  | None =>
  match first_match set_strings_beam line with
  | Some ss =>
      option_map (fun '(b, es) => (b, mkLS (ls_nodes st) es (ls_refs st)))
                 (assign_label false line "beam" ss (ls_elems st))
  | None =>
  match first_match set_strings_refs line with
  | Some ss =>
      option_map (fun '(b, rs) => (b, mkLS (ls_nodes st) (ls_elems st) rs))
                 (assign_label false line "ref" ss (ls_refs st))
  | None => Some (false, st)
  end end end end.

(** The [for line in lf] loop; [changed] is [labels_changed]. *)
Fixpoint label_lines (free : bool) (lines : list string) (changed : bool)
    (st : label_state) : option (bool * label_state) :=
  match lines with
  | [] => Some (changed, st)
  | line :: rest =>
      match (if free then free_line line st else standard_line line st) with
      | None => None
      | Some (b, st') => label_lines free rest (changed || b) st'
      end
  end.

(** [assign_labels(context)]: [log] is [None] when the [.log] cannot be
    opened, otherwise its lines; [None] as a result is an escaping
    [ValueError]. *)
Definition assign_labels (free : bool) (log : option (list string))
    (st : label_state) : option (label_status * label_state) :=
  match log with
  | None => Some (FILE_NOT_FOUND, st)
  | Some lines =>
      match label_lines free lines false st with
      | None => None
      | Some (changed, st') =>
          Some (if changed then LABELS_UPDATED else NOTHING_DONE, st')
      end
  end.

(** An item with its string label blanked: two items agree on everything
    but the string label when their erasures are equal. *)
Definition erase_label {A} `{Labelled A} (a : A) : A := set_string_label EmptyString a.

(** What the three instances satisfy: writing a string label touches
    nothing else, and writing back the current label is no change. *)
Class LabelledLaws (A : Type) `{Labelled A} := {
  erase_set : forall s a, erase_label (set_string_label s a) = erase_label a;
  int_label_set : forall s a, int_label (set_string_label s a) = int_label a;
  int_label_erase : forall a, int_label (erase_label a) = int_label a
}.

#[export] Instance node_laws : LabelledLaws node.
Proof. split; reflexivity. Qed.

#[export] Instance elem_laws : LabelledLaws elem.
Proof. split; reflexivity. Qed.

#[export] Instance ref_laws : LabelledLaws reference.
Proof. split; reflexivity. Qed.

(** Two label states agree on everything but string labels. *)
Definition same_but_labels (st st' : label_state) : Prop :=
  map erase_label (ls_nodes st') = map erase_label (ls_nodes st) /\
  map erase_label (ls_elems st') = map erase_label (ls_elems st) /\
  map erase_label (ls_refs st') = map erase_label (ls_refs st).

(** The integer [assign_label] reads from a line:
    [int(line_str[eq_idx:].strip())]. *)
Definition line_label_int (line : string) : option Z :=
  let line_str := rstrip line in
  py_int (strip (py_slice_from line_str (py_find line_str "="%char + 1)%Z)).

(** An item of [xs] whose integer label is read from none of [lines]
    is found unchanged at its position in [xs']. *)
Definition only_matched {A} `{Labelled A} (lines : list string) (xs xs' : list A) : Prop :=
  forall i x x', nth_error xs i = Some x -> nth_error xs' i = Some x' ->
    (forall line, In line lines -> line_label_int line <> Some (int_label x)) -> x' = x.

End Labels.

(* ------------------------------------------------------------------ *)
(** ** Position interpolation between two output steps

    Sample values are taken as exact rationals (the floating-point
    rounding of numpy and mathutils is not modelled). *)

Module Interp.

Local Open Scope Q_scope.

Definition vec := list Q.

(** [a[i]] on an array indexed like a Python sequence (negative indices
    from the end); [None] is [IndexError]. *)
Definition py_get {A} (l : list A) (i : Z) : option A :=
  if (i <? 0)%Z then
    let j := (Z.of_nat (List.length l) + i)%Z in
    if (j <? 0)%Z then None else nth_error l (Z.to_nat j)
  else nth_error l (Z.to_nat i).

(** [int(x)] on a float: truncation towards zero. *)
Definition py_int_of_q (x : Q) : Z :=
  if Qle_bool 0 x then Qfloor x else (- Qfloor (- x))%Z.

(** mathutils [Vector.lerp(other, t)]: [s*a + t*b] with [s = 1 - t]
    per component; [None] is the size-mismatch [ValueError]. *)
Definition lerp (a b : vec) (t : Q) : option vec :=
  if Nat.eqb (List.length a) (List.length b)
  then Some (map (fun '(x, y) => (1 - t) * x + t * y) (combine a b))
  else None.

(** [frac*first + (1 - frac)*second] on two numpy rows of one node
    (which have the same length). *)
Definition mov_interp (frac : Q) (first second : vec) : vec :=
  map (fun '(x, y) => frac * x + (1 - frac) * y) (combine first second).

(** [tdx = scene.frame_current*freq] *)
Definition tdx_of (frame_current : Z) (freq : Q) : Q := inject_Z frame_current * freq.

(** [frac = np.ceil(tdx) - tdx] *)
Definition frac_of (tdx : Q) : Q := inject_Z (Qceiling tdx) - tdx.

(** [netcdf_helper(nc, scene, key)], [var] being [nc.variables[key]]. *)
Definition netcdf_helper (var : list vec) (frame_current : Z) (freq : Q)
    : option vec :=
  let tdx := tdx_of frame_current freq in
  let frac := frac_of tdx in
  match py_get var (py_int_of_q tdx), py_get var (Qceiling tdx) with
  | Some first, Some second => lerp first second (1 - frac)
  | _, _ => None
  end.

(** Componentwise equality of two vectors. *)
Definition vec_eq (u v : vec) : Prop := Forall2 Qeq u v.

(** The point [s0 + lam*(s1 - s0)] of the segment from [s0] to [s1]. *)
Definition segment_point (s0 s1 : vec) (lam : Q) : vec :=
  map (fun '(x, y) => x + lam * (y - x)) (combine s0 s1).

End Interp.

(* ------------------------------------------------------------------ *)
(** ** Rotation interpolation for the MATRIX parametrization

    Real numbers stand for the single-precision floats of mathutils. *)

Module Slerp.

Local Open Scope R_scope.

Record quat := mkQuat { qw : R; qx : R; qy : R; qz : R }.

Record mat3 := mkMat3 {
  m11 : R; m12 : R; m13 : R;
  m21 : R; m22 : R; m23 : R;
  m31 : R; m32 : R; m33 : R
}.

Definition transposed (m : mat3) : mat3 :=
  mkMat3 (m11 m) (m21 m) (m31 m)
         (m12 m) (m22 m) (m32 m)
         (m13 m) (m23 m) (m33 m).

Definition qdot (a b : quat) : R :=
  qw a * qw b + qx a * qx b + qy a * qy b + qz a * qz b.

Definition qscale (s : R) (a : quat) : quat :=
  mkQuat (s * qw a) (s * qx a) (s * qy a) (s * qz a).

Definition qadd (a b : quat) : quat :=
  mkQuat (qw a + qw b) (qx a + qx b) (qy a + qy b) (qz a + qz b).

Definition qneg (a : quat) : quat := qscale (-1) a.

Definition qnorm (a : quat) : R := sqrt (qdot a a).

(** blenlib [normalize_qt]: the zero quaternion becomes [(0, 1, 0, 0)]. *)
Definition normalize_qt (q : quat) : quat :=
  let len := sqrt (qdot q q) in
  if Req_EM_T len 0 then mkQuat 0 1 0 0 else qscale (1 / len) q.

(** blenlib [interp_dot_slerp]: the two weights; plain linear weights
    when the quaternions are nearly aligned. *)
Definition interp_dot_slerp (t cosom : R) : R * R :=
  if Rlt_dec (Rabs cosom) (1 - 1 / 10000) then
    let omega := acos cosom in
    let sinom := sin omega in
    (sin ((1 - t) * omega) / sinom, sin (t * omega) / sinom)
  else (1 - t, t).

(** blenlib [interp_qt_qtqt]: the sign-corrected first quaternion. *)
Definition slerp_start (a b : quat) : quat :=
  if Rlt_dec (qdot a b) 0 then qneg a else a.

(** blenlib [interp_qt_qtqt] ("rotate around shortest angle"). *)
Definition interp_qt_qtqt (a b : quat) (t : R) : quat :=
  let quat := slerp_start a b in
  let cosom := qdot quat b in
  let w := interp_dot_slerp t cosom in
  qadd (qscale (fst w) quat) (qscale (snd w) b).

(** mathutils [Quaternion.slerp(other, factor)]; [None] is the
    [ValueError] for a factor outside [0, 1]. *)
Definition quat_slerp (a b : quat) (t : R) : option quat :=
  if Rlt_dec 1 t then None
  else if Rlt_dec t 0 then None
  else Some (interp_qt_qtqt a b t).

(** The angle between the rotations two quaternions stand for, up to the
    factor 2: [acos (|<p, q>| / (|p| |q|))]. *)
Definition quat_angle (p q : quat) : R :=
  acos (Rabs (qdot p q) / (qnorm p * qnorm q)).

Section Helper.

(** blenlib [mat3_normalized_to_quat] before its final [normalize_qt]
    (Blender's conversion, outside this repository). *)
Variable mat3_to_quat_raw : mat3 -> quat.

(** mathutils [Matrix.to_quaternion]. *)
Definition to_quaternion (m : mat3) : quat := normalize_qt (mat3_to_quat_raw m).

(** [netcdf_helper_quat(nc, scene, key)], [var] being [nc.variables[key]]. *)
Definition netcdf_helper_quat (var : list mat3) (frame_current : Z) (freq : Q)
    : option quat :=
  let tdx := Interp.tdx_of frame_current freq in
  let frac := Interp.frac_of tdx in
  match Interp.py_get var (Interp.py_int_of_q tdx),
        Interp.py_get var (Qceiling tdx) with
  | Some m_first, Some m_second =>
      let q_first := to_quaternion (transposed m_first) in
      let q_second := to_quaternion (transposed m_second) in
      quat_slerp q_first q_second (Q2R (1 - frac))
  | _, _ => None
  end.

End Helper.

End Slerp.

(* ------------------------------------------------------------------ *)
(** ** File names: [path_leaf], [file_len] and [setup_import]

    [ntpath] is the Windows flavour of [os.path] (Python 3.7 to 3.11),
    which [path_leaf] uses on every platform; [os.path.splitext] is
    [posixpath]'s (both flavours agree on names without separators). *)

Module Paths.

(** [s[:i]] and [s[i:]] for [0 <= i <= len(s)] *)
Definition str_take (i : nat) (s : string) : string := substring 0 i s.
Definition str_drop (i : nat) (s : string) : string := substring i (String.length s - i) s.

(** [c in '\\/'] *)
Definition is_sep (c : ascii) : bool := Ascii.eqb c "\"%char || Ascii.eqb c "/"%char.

(** Whether a character of [seps] occurs in [s]. *)
Fixpoint has_sep (s : string) : bool :=
  match s with
  | EmptyString => false
  | String c s' => is_sep c || has_sep s'
  end.

(** [p.replace('/', '\\')] *)
Fixpoint norm_seps (p : string) : string :=
  match p with
  | EmptyString => EmptyString
  | String c p' => String (if Ascii.eqb c "/"%char then "\"%char else c) (norm_seps p')
  end.

(** [ntpath.splitdrive(p)]: a drive letter or a UNC [\\server\share]. *)
Definition splitdrive (p : string) : string * string :=
  if Nat.leb 2 (String.length p) then
    let normp := norm_seps p in
    if String.eqb (str_take 2 normp) "\\" && negb (String.eqb (substring 2 1 normp) "\") then
      match String.index 2 "\" normp with
      | None => (EmptyString, p)
      | Some index =>
          match String.index (S index) "\" normp with
          | Some index2 =>
              if Nat.eqb index2 (S index) then (EmptyString, p)
              else (str_take index2 p, str_drop index2 p)
          | None => (p, EmptyString)   (* index2 = len(p) *)
          end
      end
    else if String.eqb (substring 1 1 normp) ":" then (str_take 2 p, str_drop 2 p)
    else (EmptyString, p)
  else (EmptyString, p).

(** The final value of [i] in [while i and p[i-1] not in seps: i -= 1]:
    the position just after the last separator, 0 if there is none. *)
Fixpoint last_sep_end (s : string) (k acc : nat) : nat :=
  match s with
  | EmptyString => acc
  | String c s' => last_sep_end s' (S k) (if is_sep c then S k else acc)
  end.

Fixpoint lstrip_seps (s : string) : string :=
  match s with
  | String c s' => if is_sep c then lstrip_seps s' else s
  | EmptyString => EmptyString
  end.

(** [head.rstrip(seps)] *)
Definition rstrip_seps (s : string) : string := string_rev (lstrip_seps (string_rev s)).

(** [ntpath.split(p)] *)
Definition ntsplit (p : string) : string * string :=
  let (d, r) := splitdrive p in
  let i := last_sep_end r 0 0 in
  let head := str_take i r in
  let tail := str_drop i r in
  let h := rstrip_seps head in
  (d ++ (if String.eqb h EmptyString then head else h), tail).

(** [ntpath.basename(p)] *)
Definition basename (p : string) : string := snd (ntsplit p).

(** [s.rfind(c)], -1 when absent. *)
Fixpoint rfind_from (c : ascii) (s : string) (k acc : Z) : Z :=
  match s with
  | EmptyString => acc
  | String d s' => rfind_from c s' (k + 1) (if Ascii.eqb c d then k else acc)
  end.

Definition py_rfind (s : string) (c : ascii) : Z := rfind_from c s 0 (-1).

(** The loop of [genericpath._splitext] looking for a character other
    than the extension separator before the last dot. *)
Fixpoint has_non_dot (s : string) : bool :=
  match s with
  | EmptyString => false
  | String c s' => negb (Ascii.eqb c ".") || has_non_dot s'
  end.

(** [os.path.splitext(p)] ([posixpath]: separator ['/'], no altsep). *)
Definition splitext (p : string) : string * string :=
  let sepIndex := py_rfind p "/" in
  let dotIndex := py_rfind p "." in
  if (sepIndex <? dotIndex)%Z &&
     has_non_dot (py_slice p (sepIndex + 1) dotIndex)
  then (py_slice p 0 dotIndex, py_slice_from p dotIndex)
  else (p, EmptyString).

(** [str.replace(old, new)] with a non-empty [old]: the occurrences are
    replaced left to right without overlap; [skip] counts the characters
    of the last match still to be dropped. *)
Fixpoint replace_from (old new s : string) (skip : nat) : string :=
  match s with
  | EmptyString => EmptyString
  | String c s' =>
      match skip with
      | S k => replace_from old new s' k
      | O => if prefix old s
             then new ++ replace_from old new s' (String.length old - 1)
             else String c (replace_from old new s' 0)
      end
  end.

(** [str.replace(old, new)] with an empty [old]: [new] around every
    character. *)
Fixpoint replace_empty (new s : string) : string :=
  match s with
  | EmptyString => new
  | String c s' => new ++ String c (replace_empty new s')
  end.

Definition py_replace (s old new : string) : string :=
  match old with
  | EmptyString => replace_empty new s
  | _ => replace_from old new s 0
  end.

(** [path_leaf(path, keep_extension)] *)
Definition path_leaf (path : string) (keep_extension : bool) : string * string :=
  let (head, tail) := ntsplit path in
  let tail1 := match tail with EmptyString => basename head | _ => tail end in
  if keep_extension then (py_replace path tail1 EmptyString, tail1)
  else (py_replace path tail1 EmptyString, fst (splitext tail1)).

(** What [open(filepath)] and the reading of the file find. *)
Inductive fs_entry :=
| NoFile                       (* FileNotFoundError *)
| Directory                    (* IsADirectoryError *)
| Unreadable                   (* any other error of [open] or of the
                                  reading: PermissionError,
                                  UnicodeDecodeError, ... *)
| TextFile (lines : list string).

(** [file_len(filepath)]; [None] is an uncaught exception: the
    [FileNotFoundError], or any error other than [IsADirectoryError] and
    [UnboundLocalError].  An empty file leaves [kk] unbound:
    [UnboundLocalError], 0. *)
Definition file_len (f : fs_entry) : option Z :=
  match f with
  | NoFile => None
  | Directory => Some 0%Z
  | Unreadable => None
  | TextFile ls =>
      match ls with
      | [] => Some 0%Z
      | _ :: _ => Some (Z.of_nat (List.length ls) - 1 + 1)%Z   (* kk + 1 *)
      end
  end.

(** The [mbs] fields [setup_import] writes. *)
Record setup_state := mkSetup {
  file_path : string;
  file_basename : string;
  use_netcdf : bool;
  num_rows : Z
}.

Inductive setup_status := SETUP_FINISHED | FILE_ERROR.

Section Setup.

(** The NetCDF branch of [setup_import] (it reads the [Dataset]). *)
Variable setup_netcdf : string -> setup_state -> option (setup_status * setup_state).

(** [setup_import(filepath, context)], [f] being what [filepath] names. *)
Definition setup_import (filepath : string) (f : fs_entry) (st : setup_state)
    : option (setup_status * setup_state) :=
  let (fp, bn) := path_leaf filepath false in
  let st1 := mkSetup fp bn (use_netcdf st) (num_rows st) in
  if String.eqb (py_slice_from filepath (-2)) "nc" then setup_netcdf filepath st1
  else
    match file_len f with
    | None => None
    | Some n =>
        let st2 := mkSetup fp bn false n in
        if (n <? 0)%Z then Some (FILE_ERROR, st2) else Some (SETUP_FINISHED, st2)
    end.

End Setup.

End Paths.

(** [number_modal_modes], [update_end_time], [update_start_time],
    [comp_repr] and [parse_input_file] of [baselib.py]. *)
Module Misc.

Notation "'let?' x ':=' e 'in' f" :=
  (match e with Some x => f | None => None end)
  (at level 200, x name, e at level 100, f at level 200).

(** The [while True] loop of [number_modal_modes] once the first row has
    been read: [n] is [num_modal_modes] after its increment. *)
Fixpoint modes_loop (first_mode : string) (rows : list (list string)) (n : Z)
    : option Z :=
  match rows with
  | [] => Some n                                 (* StopIteration: break *)
  | rw :: rows' =>
      let? mode := py_index rw 0 in
      if String.eqb mode first_mode then Some n
      else modes_loop first_mode rows' (n + 1)%Z
  end.

(** [number_modal_modes(context)]: [mod_file] is [None] when there is no
    [.mod] file; [None] as a result is an uncaught exception. *)
Definition number_modal_modes (mod_file : option (list (list string))) : option Z :=
  match mod_file with
  | None => Some 0%Z
  | Some [] => None                              (* next(reader_mod) *)
  | Some (rw :: rows) =>
      let? first_mode := py_index rw 0 in
      modes_loop first_mode rows 1%Z
  end.

(** [l[-1]]: [IndexError] on an empty list. *)
Definition py_last {A} (l : list A) : option A :=
  match List.rev l with [] => None | x :: _ => Some x end.

Local Open Scope Q_scope.

(** [update_end_time]: the new [end_time]; [nctime] is
    [nc.variables["time"]] (used when [use_netcdf]).  [a < b] is written
    [negb (Qle_bool b a)]. *)
Definition update_end_time (use_netcdf : bool) (nctime : list Q)
    (end_time : Q) (num_timesteps : Z) (time_step : Q) : option Q :=
  if use_netcdf then
    let? last := py_last nctime in
    if negb (Qle_bool (end_time - last) time_step) then Some last else Some end_time
  else if negb (Qle_bool end_time (inject_Z num_timesteps * time_step))
  then Some (inject_Z num_timesteps * time_step)
  else Some end_time.

(** [update_start_time]: the new [start_time]. *)
Definition update_start_time (use_netcdf : bool) (nctime : list Q)
    (start_time : Q) (num_timesteps : Z) (time_step : Q) : option Q :=
  if use_netcdf then
    let? t0 := py_index nctime 0 in
    if negb (Qle_bool t0 start_time) then Some t0 else Some start_time
  else if Qle_bool (inject_Z num_timesteps * time_step) start_time
  then Some (inject_Z (num_timesteps - 1)%Z * time_step)
  else Some start_time.

Local Close Scope Q_scope.

(** [sep.join(l)] *)
Fixpoint py_join (sep : string) (l : list string) : string :=
  match l with
  | [] => EmptyString
  | [x] => x
  | x :: l' => x ++ sep ++ py_join sep l'
  end.

(** [[f(mdx) for mdx in range(m) if components[mdx] is True]];
    [components[mdx]] raises [IndexError] past the end. *)
Fixpoint selected_from (components : list bool) (f : nat -> string)
    (mdx fuel : nat) : option (list string) :=
  match fuel with
  | O => Some []
  | S fuel' =>
      let? b := py_index components mdx in
      let? rest := selected_from components f (S mdx) fuel' in
      Some (if b then f mdx :: rest else rest)
  end.

(** [comps] is a string or a list. *)
Inductive repr_val := RStr (s : string) | RList (l : list string).

Definition dims_names_sym : list string :=
  ["(1,1)"; "(1,2)"; "(1,3)"; "(2,2)"; "(2,3)"; "(3,3)"].

Definition dims_names_full : list string :=
  ["(1,1)"; "(1,2)"; "(1,3)"; "(2,1)"; "(2,2)"; "(2,3)"; "(3,1)"; "(3,2)"; "(3,3)"].

(** [comp_repr(components, variable, context)], [shape] being
    [var.shape] and [plot_var] [mbs.plot_var]; [None] is an uncaught
    exception ([IndexError], or the [TypeError] of ['[' + comps + ']']
    with a list [comps]). *)
Definition comp_repr (components : list bool) (shape : list Z) (plot_var : string)
    : option repr_val :=
  match shape with
  | [_; m] =>
      let? cs := selected_from components (fun mdx => py_str_Z (Z.of_nat mdx + 1)%Z)
                   0 (Z.to_nat m) in
      let comps := py_join "," cs in
      if String.eqb comps EmptyString then Some (RStr comps)
      else Some (RStr ("[" ++ comps ++ "]"))
  | [_; _; _] =>
      let? lc := last_char plot_var in
      let dims_names := if Ascii.eqb lc "R"%char then dims_names_sym else dims_names_full in
      let? cs := selected_from components (fun mdx => nth mdx dims_names EmptyString)
                   0 (List.length dims_names) in
      match cs with
      | [] => Some (RList [])
      | _ :: _ => None                                (* TypeError *)
      end
  | _ => Some (RStr EmptyString)
  end.

Section InputFile.

Variable py_float : string -> option Q.

(** The [while True] loop of [parse_input_file]: [first] is the variable
    [first] ([None] while unbound); the result is the pair
    [(mbs.final_time, mbs.ui_time)]. *)
Fixpoint input_loop (first : option string) (rows : list (list string))
    (final_time ui_time : Q) : option (Q * Q) :=
  match rows with
  | [] => None                                     (* StopIteration *)
  | rw :: rows' =>
      let first' := match rw with [] => first | t :: _ => Some (strip t) end in
      let? f := first' in                           (* UnboundLocalError *)
      if String.eqb f "final" then
        let? time := py_index rw 2 in
        match py_float (drop_last time) with
        | None => Some (ui_time, ui_time)
        | Some t => Some (t, t)
        end
      else input_loop first' rows' final_time ui_time
  end.

(** No row of [rows] has ['final'] as its stripped first field. *)
Definition not_final (rows : list (list string)) : Prop :=
  forall r t g, In r rows -> r = t :: g -> strip t <> "final".

(** [parse_input_file(context)] on the rows of [mbs.input_path]. *)
Definition parse_input_file (rows : list (list string)) (final_time ui_time : Q)
    : option (Q * Q) :=
  input_loop None rows final_time ui_time.

End InputFile.

(** [active_object_rel(bool1, bool2)]; [None] is the implicit
    [return None] at the end of the body. *)
Definition active_object_rel (bool1 bool2 : bool) : option bool :=
  if negb bool1 then Some true
  else if bool1 then (if bool2 then Some true else Some false)
  else None.

(** The truth value [filter] sees: [None] is falsy. *)
Definition py_truthy (v : option bool) : bool :=
  match v with Some true => true | _ => false end.

(** [s.split(c)] for a one-character separator. *)
Fixpoint py_split_char (c : ascii) (s : string) : list string :=
  match s with
  | EmptyString => [EmptyString]
  | String x s' =>
      let rest := py_split_char c s' in
      if Ascii.eqb x c then EmptyString :: rest
      else match rest with
           | h :: t => String x h :: t
           | [] => [String x EmptyString]
           end
  end.

(** A variable of the NetCDF file: its key and, when it has the
    attribute, its [units]. *)
Record nc_var := mkNcVar { var_name : string; var_units : option string }.

Definition render_units : list string := ["m/s"; "s"; "m"; "N"; "Nm"].

Section RenderVars.

(** [bpy.data.objects[name].select]; [None] when the object is missing
    ([KeyError]) or the attribute cannot be read. *)
Variable obj_selected : string -> option bool.

(** [[str(var.int_label) for var in ed if bpy.data.objects[var.blender_object].select]] *)
Fixpoint scene_objs (ed : list elem) : option (list string) :=
  match ed with
  | [] => Some []
  | e :: ed' =>
      let? b := obj_selected (elem_blender_object e) in
      let? rest := scene_objs ed' in
      Some (if b then py_str_Z (elem_int_label e) :: rest else rest)
  end.

(** [get_render_vars(self, context)] once [nc] is open, [vars] being
    [nc.variables] in key order. *)
Definition get_render_vars (vars : list nc_var) (ed : list elem)
    : option (list (string * string * string)) :=
  let rv := filter (fun v => match var_units v with Some _ => true | None => false end) vars in
  let rv := filter (fun v => match var_units v with
                             | Some u => existsb (String.eqb u) render_units
                             | None => false
                             end) rv in
  let? so := scene_objs ed in
  let rv := filter (fun v => py_truthy (active_object_rel (py_contains "elem" (var_name v))
                      (existsb (fun i => existsb (String.eqb i) so)
                               (py_split_char "."%char (var_name v))))) rv in
  Some (map (fun v => (var_name v, var_name v, EmptyString)) rv).

End RenderVars.

End Misc.

(** The main loop of [set_motion_paths_mov] without a [.mod] file: the
    [.mov] rows, already converted by [np.array(...).astype(np.float)],
    are read node block by node block.  [first_mov] and [second_mov]
    are two list objects; after [first_mov = second_mov] both names
    denote the second one, and the writes through [first_mov] land in
    it. *)
Module MovPaths.

Notation "'let?' x ':=' e 'in' f" :=
  (match e with Some x => f | None => None end)
  (at level 200, x name, e at level 100, f at level 200).

Local Open Scope Q_scope.

(** [next(reader_mov)] [n] times; [None] is the uncaught
    [StopIteration]. *)
Fixpoint skip_rows (n : nat) (rows : list (list Q)) : option (list (list Q)) :=
  match n with
  | O => Some rows
  | S n' => match rows with [] => None | _ :: rows' => skip_rows n' rows' end
  end.

(** [n] rows read with [next(reader_mov)]. *)
Fixpoint read_rows (n : nat) (rows : list (list Q))
    : option (list (list Q) * list (list Q)) :=
  match n with
  | O => Some ([], rows)
  | S n' =>
      match rows with
      | [] => None
      | r :: rows' => let? p := read_rows n' rows' in Some (r :: fst p, snd p)
      end
  end.

(** The two list objects and where the name [first_mov] points. *)
Record mov_store := mkStore {
  cell_first : list (list Q);     (* the list created as [first_mov] *)
  cell_second : list (list Q);    (* the list created as [second_mov] *)
  first_is_second : bool          (* after [first_mov = second_mov] *)
}.

Definition first_mov (st : mov_store) : list (list Q) :=
  if first_is_second st then cell_second st else cell_first st.

(** [first_mov[ndx] = ...] for every [ndx]. *)
Definition write_first (st : mov_store) (v : list (list Q)) : mov_store :=
  if first_is_second st then mkStore (cell_first st) v true
  else mkStore v (cell_second st) false.

(** What a frame sets on the objects: with [freq > 1], for each node
    [frac * first_mov[ndx] + (1 - frac) * second_mov[ndx]] (kept as
    the weight and the two rows); otherwise the rows of [first_mov]. *)
Inductive frame_out :=
| Blend (frac : Q) (pairs : list (list Q * list Q))
| Direct (rows : list (list Q)).

(** [frac * a + (1 - frac) * b] on two numpy rows followed by
    [answer[0]]: the shapes must broadcast ([ValueError] otherwise) and
    the result must not be empty ([IndexError]). *)
Definition blend_ok (a b : list Q) : bool :=
  let la := List.length a in
  let lb := List.length b in
  (Nat.eqb la lb || Nat.eqb la 1 || Nat.eqb lb 1) &&
  negb (Nat.eqb (if Nat.eqb la 1 then lb else la) 0).

(** The array [answer = frac * a + (1 - frac) * b], with numpy's
    broadcasting of a one-element row. *)
Definition blend_row (frac : Q) (a b : list Q) : list Q :=
  if Nat.eqb (List.length a) (List.length b) then Interp.mov_interp frac a b
  else if Nat.eqb (List.length a) 1
  then map (fun y => frac * hd 0 a + (1 - frac) * y) b
  else map (fun x => frac * x + (1 - frac) * hd 0 b) a.

(** How a call of [set_obj_locrot_mov(obj, rw)] ends; that function is
    defined outside [src/], so its outcome is a parameter of the loop. *)
Inductive call_result := Returns | RaisesKeyError | RaisesOther.

Definition raises_other (r : call_result) : bool :=
  match r with RaisesOther => true | _ => false end.

Definition returns (r : call_result) : bool :=
  match r with Returns => true | _ => false end.

Section Loop.

Variable num_nodes : nat.
Variable freq : Q.

(** Whether [bpy.data.objects[anim_objs[round(x)]]] succeeds: [anim_objs]
    has the key [round(x)] (filled by the first loop from the nodes with
    an object and output) and the object exists. *)
Variable anim_has : Q -> bool.

(** Whether the first loop calls [set_obj_locrot_mov] on a row starting
    with [x]: [nd['node_' + str(int(x))]] exists, its object is not
    ['none'], its output is on and [bpy.data.objects[obj_name]] exists. *)
Variable first_calls : Q -> bool.

(** The outcome of [set_obj_locrot_mov(obj, rw)]. *)
Variable set_obj_locrot_mov : list Q -> call_result.

(** The body of the first loop on one row: [int(rw_mov[0])] raises
    [IndexError] on an empty row, outside the [except KeyError]; a
    [KeyError] of [set_obj_locrot_mov] is caught there. *)
Definition first_row_ok (rw : list Q) : bool :=
  match rw with
  | [] => false
  | x :: _ => if first_calls x then negb (raises_other (set_obj_locrot_mov rw)) else true
  end.

(** [anim_objs[round(rw_mov[0])]] succeeds. *)
Definition has_anim_key (rw : list Q) : bool :=
  match rw with [] => false | x :: _ => anim_has x end.

(** The body of [for ndx in range(mbs.num_nodes)] with [freq <= 1],
    outside any [try]. *)
Definition direct_ok (rw : list Q) : bool :=
  has_anim_key rw && returns (set_obj_locrot_mov rw).

(** The body of [for ndx in range(mbs.num_nodes)] with [freq > 1]: a
    [KeyError] is caught, any other exception escapes. *)
Definition blend_node_ok (frac : Q) (a b : list Q) : bool :=
  blend_ok a b &&
  (let answer := blend_row frac a b in
   match answer with
   | [] => false
   | x :: _ => if anim_has x then negb (raises_other (set_obj_locrot_mov answer)) else true
   end).

(** One iteration of [for idx, frame in enumerate(...)]; [nskip] is
    [Nskip_mov] before it. *)
Definition mov_step (frame : Q) (nskip : Z) (st : mov_store) (rows : list (list Q))
    : option (frame_out * Z * mov_store * list (list Q)) :=
  let nskip := if negb (Qle_bool freq 1)
               then ((Interp.py_int_of_q frame - Interp.py_int_of_q (frame - freq) - 2)
                      * Z.of_nat num_nodes)%Z
               else nskip in
  let? p := (if Z.leb 0 nskip then
               let? rows := skip_rows (Z.to_nat nskip) rows in
               let? q := read_rows num_nodes rows in
               Some (write_first st (fst q), snd q)
             else Some (st, rows)) in
  let (st, rows) := p in
  if negb (Qle_bool freq 1) then
    let frac := inject_Z (Qceiling frame) - frame in
    let? q := read_rows num_nodes rows in
    let st := mkStore (cell_first st) (fst q) (first_is_second st) in
    let pairs := combine (first_mov st) (cell_second st) in
    if forallb (fun '(a, b) => blend_node_ok frac a b) pairs then
      Some (Blend frac pairs, nskip, mkStore (cell_first st) (cell_second st) true, snd q)
    else None
  else
    if forallb direct_ok (first_mov st)
    then Some (Direct (first_mov st), nskip, st, rows)
    else None.

Fixpoint mov_loop (frames : list Q) (nskip : Z) (st : mov_store) (rows : list (list Q))
    : option (list frame_out) :=
  match frames with
  | [] => Some []
  | frame :: frames' =>
      let? r := mov_step frame nskip st rows in
      let '(out, nskip', st', rows') := r in
      let? outs := mov_loop frames' nskip' st' rows' in
      Some (out :: outs)
  end.

(** From [first_mov = []] to the end of the main loop; [start_skip] is
    [int(mbs.start_time * mbs.num_nodes / mbs.time_step)] and [frames]
    the values of [np.arange(loop_start + freq, loop_end, freq)]. *)
Definition set_motion_paths_mov_loop (start_skip : Z) (frames : list Q)
    (rows : list (list Q)) : option (list frame_out) :=
  let? rows := skip_rows (Z.to_nat start_skip) rows in
  let? q := read_rows num_nodes rows in
  if forallb first_row_ok (fst q)
  then mov_loop frames 0%Z (mkStore (fst q) (fst q) false) (snd q)
  else None.

End Loop.

End MovPaths.

(* ------------------------------------------------------------------ *)
(** ** Concrete inputs *)

Module Samples.

Import LogParser.

(** A node as a previous import leaves it. *)
Definition imported_node (l : Z) (par obj : string) : node :=
  {| node_name := "node_" ++ py_str_Z l; node_int_label := l;
     node_string_label := "none"; node_parametrization := par;
     node_output := true; node_blender_object := obj;
     node_is_imported := true |}.

(** A [structural node:] row of the log. *)
Definition node_row (lbl par : string) : list string :=
  ["structural"; "node:"; lbl; "0."; "0."; "0."; par; "1."; "0."; "0."].

(** The end-of-declarations line of an MBDyn log, [Symbol table:]. *)
Definition symbol_table_row : list string := ["Symbol"; "table:"].

(** An element sub-parser that accepts every row and changes nothing. *)
Definition keep_elements : string -> list string -> list elem -> option (bool * list elem) :=
  fun _ _ es => Some (true, es).

(** [float()] on the integer strings of the samples. *)
Definition float_of_int_string (s : string) : option Q :=
  option_map inject_Z (py_int s).

Definition registry_123 : registry :=
  mkRegistry [imported_node 1 "PHI" "Node.001"; imported_node 2 "PHI" "Node.002";
              imported_node 3 "PHI" "Node.003"] [].

Definition log_124 : list (list string) :=
  [node_row "1" "phi"; node_row "2" "phi"; node_row "4" "phi"; symbol_table_row].

(** The [.mov] rows of one time step of nodes 1, 2, 4, then the next. *)
Definition mov_124 : list (list string) := [["1"]; ["2"]; ["4"]; ["1"]].

Definition input_124 : import_input :=
  mkInput (Some log_124) (Some mov_124) (OutRows [["Step"]; ["0"; "1"; "2"; "1"]])
          false 40 0 (fun _ => false).

Definition registry_12 : registry :=
  mkRegistry [imported_node 1 "PHI" "Node.001"; imported_node 2 "PHI" "Node.002"] [].

Definition log_313 : list (list string) :=
  [node_row "1" "euler123"; node_row "2" "euler313"; symbol_table_row].

Definition input_313 : import_input :=
  mkInput (Some log_313) (Some [["1"]; ["2"]; ["1"]]) (OutRows []) false 20 0
          (fun _ => false).

(** A five-node model and a [.mov] file of 50 rows. *)
Definition registry_5 : registry :=
  mkRegistry (map (fun l => imported_node l "PHI" EmptyString) [1; 2; 3; 4; 5]%Z) [].

Definition input_5 : import_input :=
  mkInput (Some [node_row "1" "phi"; node_row "2" "phi"; node_row "3" "phi";
                 node_row "4" "phi"; node_row "5" "phi"; symbol_table_row])
          (Some [["1"]; ["2"]; ["3"]; ["4"]; ["5"]; ["1"]]) (OutRows []) false 50 0
          (fun _ => false).

(** A beam3 element already in the registry, and a beam3 row for it. *)
Definition beam3_7 : elem :=
  {| elem_name := "beam3_7"; elem_type := "beam3"; elem_mbclass := "elem.beam";
     elem_int_label := 7; elem_string_label := "none"; elem_nodes := [1; 2; 3]%Z;
     elem_offsets := [(0, 0, 0); (0, 0, 0); (0, 0, 0)]%Q;
     elem_blender_object := "Beam.007"; elem_is_imported := false |}.

(** A beam2 element with label [l] bound to the object [obj]. *)
Definition beam2_elem_sample (l : Z) (obj : string) : elem :=
  {| elem_name := "beam2_" ++ py_str_Z l; elem_type := "beam2"; elem_mbclass := "elem.beam";
     elem_int_label := l; elem_string_label := "none"; elem_nodes := [1; 2]%Z;
     elem_offsets := [(0, 0, 0); (0, 0, 0)]%Q;
     elem_blender_object := obj; elem_is_imported := true |}.

Definition beam3_row : list string :=
  ["beam3:"; "7"; "1"; "1"; "1"; "1"; "2"; "2"; "2"; "2"; "3"; "3"; "3"; "3"].

(** A beam2 row for element 7, and the same row with the label written
    ["07"]. *)
Definition beam2_row : list string :=
  ["beam2:"; "7"; "1"; "0"; "0"; "0"; "2"; "1"; "0"; "0"].

Definition beam2_row_07 : list string :=
  ["beam2:"; "07"; "1"; "0"; "0"; "0"; "2"; "1"; "0"; "0"].

Definition beam3_row_07 : list string :=
  ["beam3:"; "07"; "1"; "1"; "1"; "1"; "2"; "2"; "2"; "2"; "3"; "3"; "3"; "3"].

(** Two nodes with the default string label. *)
Definition label_nodes : list node :=
  [imported_node 17 "PHI" "Node.017"; imported_node 18 "PHI" "Node.018"].

(** The symbol-table line of the label round-trip. *)
Definition node_42_line : string := "  integer Node_42 = 17".

(** The registry of the label round-trip: no elements, no references. *)
Definition label_state_0 : Labels.label_state := Labels.mkLS label_nodes [] [].

(** A symbol-table line whose value is not an integer. *)
Definition bad_label_line : string := "  integer Node_5 = x".

(** A free-label line that writes back the default string label of
    node 17. *)
Definition none_17_line : string := "  integer none = 17".

(** The identity and the quarter turn about the z axis. *)
Definition rot_z_0 : Slerp.mat3 := Slerp.mkMat3 1 0 0  0 1 0  0 0 1.

Definition rot_z_90 : Slerp.mat3 := Slerp.mkMat3 0 (-1) 0  1 0 0  0 0 1.

(** A stand-in for Blender's matrix-to-quaternion conversion (before its
    final normalisation), enough to run the MATRIX path on samples. *)
Definition sample_mat3_to_quat_raw (m : Slerp.mat3) : Slerp.quat :=
  Slerp.mkQuat (1 + Slerp.m11 m) 0 0 (Slerp.m21 m).

End Samples.

(* ================================================================== *)
(** * Properties *)

Module LogParserFacts.

Import LogParser Samples.

(** The scan from a cleared registry, as [parse_log_file] starts it. *)
Lemma reset_registry_123 :
  mkRegistry (map (set_node_imported false) (nd registry_123))
             (map (set_elem_imported false) (ed registry_123))
  = mkRegistry [set_node_imported false (imported_node 1 "PHI" "Node.001");
                set_node_imported false (imported_node 2 "PHI" "Node.002");
                set_node_imported false (imported_node 3 "PHI" "Node.003")] [].
Proof. reflexivity. Qed.

(** C1 (code_bug): re-importing nodes {1,2,4} over {1,2,3}.  The try
    block classifies the pass as [NODES_INCONSISTENT], node 3's visual
    binding is the only one returned for removal and node 4 is appended
    after nodes 1, 2, 3 (1 and 2 updated in place); but [parse_log_file]
    returns [FINISHED], because [if nn: ... ret_val = {'FINISHED'}]
    overwrites the classification. *)
Theorem c1_reimport_status_overwritten :
  (exists r, parse_log_try keep_elements input_124 false true
               (mkRegistry (map (set_node_imported false) (nd registry_123)) [])
             = Some (NODES_INCONSISTENT, r)) /\
  (exists res, parse_log_file keep_elements float_of_int_string input_124 registry_123 = Some res /\
     res_status res = FINISHED /\
     res_obj_names res = ["Node.003"] /\
     map node_name (nd (res_registry res)) = ["node_1"; "node_2"; "node_3"; "node_4"] /\
     map node_is_imported (nd (res_registry res)) = [true; true; false; true]).
Proof.
  split.
  - eexists. reflexivity.
  - eexists. split; [reflexivity|]. repeat split; reflexivity.
Qed.

(** C2 (counterexample): a node with [euler313] after a node re-declared
    with [euler123].  The pass does not return [ROTATION_ERROR] (the
    status is overwritten with [FINISHED]) and the earlier node has been
    mutated: its parametrization is now [EULER123] instead of [PHI]. *)
Lemma c2_unsupported_parametrization_not_atomic :
  exists res,
    parse_log_file keep_elements float_of_int_string input_313 registry_12 = Some res /\
    res_status res <> ROTATION_ERROR /\
    map node_parametrization (nd (res_registry res)) = ["EULER123"; "PHI"] /\
    map node_parametrization (nd registry_12) = ["PHI"; "PHI"].
Proof.
  eexists. split; [reflexivity|]. split; [discriminate|]. split; reflexivity.
Qed.

(** [parse_node] leaves the nodes untouched and returns [{}] on a row
    whose parametrization is not supported. *)
Lemma parse_node_unsupported rw lbl tok nodes :
  py_index rw 2 = Some lbl -> py_index rw 6 = Some tok ->
  supported_parametrization tok = None ->
  parse_node rw nodes = Some (PNEmptyDict, nodes).
Proof. intros H2 H6 Hs. unfold parse_node. rewrite H2, H6, Hs. reflexivity. Qed.

(** A scan that ran out of rows continues with the next row from where
    it stopped. *)
Lemma scan_eof_app pe pre e r bn be r' rw post :
  scan pe pre e r bn be = ScanEOF r' ->
  exists e' bn' be',
    String.eqb (drop_last e') "Symbol table" = false /\
    scan pe (List.app pre (rw :: post)) e r bn be = scan pe (rw :: post) e' r' bn' be'.
Proof.
  revert e r bn be.
  induction pre as [|rw0 pre IH]; intros e r bn be H; simpl in *.
  - destruct (String.eqb (drop_last e) "Symbol table") eqn:E; [discriminate|].
    injection H as <-. exists e, bn, be. split; [exact E|]. simpl. rewrite E. reflexivity.
  - destruct (String.eqb (drop_last e) "Symbol table") eqn:E; [discriminate|].
    destruct (classify_record rw0) as [[e0 [| | k]]|]; try discriminate.
    + apply IH. exact H.
    + destruct (parse_node rw0 (nd r)) as [[[b|] ns]|]; try discriminate.
      apply IH. exact H.
    + destruct (pe k rw0 (ed r)) as [[b es]|]; try discriminate.
      apply IH. exact H.
Qed.

(** C2 (amended): when the declarations before a node row with an
    unsupported parametrization have been scanned into [r'] (from the
    registry whose [is_imported] flags were all cleared), the try block of
    [parse_log_file] ends with [ROTATION_ERROR] and the registry [r']:
    no row after the offending one is parsed, and the updates of the rows
    before it, like the cleared flags, stay in the registry. *)
Theorem c2_rotation_error_stops_scan :
  forall pe (inp : import_input) pre rw post lbl tok en r1 r' init_nd init_ed,
  in_log inp = Some (List.app pre (rw :: post)) ->
  classify_record rw = Some (en, NodeDecl) ->
  py_index rw 2 = Some lbl -> py_index rw 6 = Some tok ->
  supported_parametrization tok = None ->
  scan pe pre EmptyString r1 true true = ScanEOF r' ->
  parse_log_try pe inp init_nd init_ed r1 = Some (ROTATION_ERROR, r').
Proof.
  intros pe inp pre rw post lbl tok en r1 r' init_nd init_ed Hlog Hc H2 H6 Hs Hpre.
  unfold parse_log_try. rewrite Hlog.
  destruct (scan_eof_app pe pre EmptyString r1 true true r' rw post Hpre)
    as (e' & bn' & be' & He & ->).
  simpl. rewrite He, Hc. rewrite (parse_node_unsupported rw lbl tok (nd r') H2 H6 Hs).
  reflexivity.
Qed.

Lemma c2_rotation_error_stops_scan_witness :
  parse_log_try keep_elements input_313 false true
    (mkRegistry (map (set_node_imported false) (nd registry_12)) [])
  = Some (ROTATION_ERROR,
          mkRegistry [{| node_name := "node_1"; node_int_label := 1;
                         node_string_label := "none";
                         node_parametrization := "EULER123"; node_output := true;
                         node_blender_object := "Node.001"; node_is_imported := true |};
                      set_node_imported false (imported_node 2 "PHI" "Node.002")] []).
Proof.
  apply (c2_rotation_error_stops_scan keep_elements input_313
           [node_row "1" "euler123"] (node_row "2" "euler313") [symbol_table_row]
           "2" "euler313" "structural node:");
    reflexivity.
Defined.

(** C7 (code_bug): the row [x y z kind: 7] has its fourth token ending
    in [':'], but the inner loop stops there with [ii = 3 = min(3,
    len(rw)-1)], the test meant for "no colon found", and the row is
    skipped instead of being handed to [parse_elements] with [x y z
    kind]. *)
Theorem c7_fourth_token_tag_skipped :
  classify_record ["x"; "y"; "z"; "kind:"; "7"] = Some ("x y z kind:", SkipRow) /\
  classify_record ["x"; "y"; "kind:"; "7"; "8"] = Some ("x y kind:", ElemDecl "x y kind") /\
  classify_record (node_row "1" "phi") = Some ("structural node:", NodeDecl).
Proof. split; [|split]; reflexivity. Qed.

(** C8 (counterexample): a line whose content is [Symbol table] does not
    end the declaration loop ([entry[:-1]] is ["Symbol tabl"]); the node
    declared on the next line is parsed. *)
Lemma c8_symbol_table_without_colon :
  exists r,
    scan keep_elements [["Symbol"; "table"]; node_row "1" "phi"]
      EmptyString (mkRegistry [] []) true true = ScanEOF r /\
    map node_name (nd r) = ["node_1"].
Proof. eexists. split; reflexivity. Qed.

(** C8 (amended): the loop ends right after the first record whose
    [entry] (its tokens [rw[0..ii]] joined by spaces, as the inner loop
    builds it) is ["Symbol table"] plus one last character, as for the
    MBDyn marker line [Symbol table:], or at the end of the file:
    nothing after that record is parsed.  A line [Symbol table ] with a
    trailing space is read as [['Symbol', 'table', '']], and
    [rw[2][-1]] raises an [IndexError] that [parse_log_file] does not
    catch. *)
Theorem c8_scan_stops_after_symbol_table :
  (forall pe pre rw post e r bn be e' k,
     classify_record rw = Some (e', k) -> drop_last e' = "Symbol table" ->
     scan pe (List.app pre (rw :: post)) e r bn be =
     scan pe (List.app pre [rw]) e r bn be) /\
  classify_record symbol_table_row = Some ("Symbol table:", SkipRow) /\
  (forall pe rows e r bn be, String.eqb (drop_last e) "Symbol table" = false ->
     scan pe (["Symbol"; "table"; EmptyString] :: rows) e r bn be = ScanCrash).
Proof.
  split; [|split; [reflexivity|]].
  - intros pe pre rw post e0 r0 bn0 be0 e' k Hc Hd.
    assert (Hstop : forall rows r bn be, scan pe rows e' r bn be = ScanSymbolTable r bn be).
    { intros rows r bn be. destruct rows; simpl; rewrite Hd; reflexivity. }
    revert e0 r0 bn0 be0.
    induction pre as [|rw0 pre IH]; intros e r bn be; simpl.
    + destruct (String.eqb (drop_last e) "Symbol table"); [reflexivity|].
      rewrite Hc. destruct k as [| |kind];
        [|destruct (parse_node rw (nd r)) as [[[b|] ns]|]
         |destruct (pe kind rw (ed r)) as [[b es]|]];
        rewrite ?Hstop, ?Hd; reflexivity.
    + destruct (String.eqb (drop_last e) "Symbol table"); [reflexivity|].
      destruct (classify_record rw0) as [[e0 [| | k0]]|]; [apply IH| | |reflexivity].
      * destruct (parse_node rw0 (nd r)) as [[[b|] ns]|]; [apply IH|reflexivity|reflexivity].
      * destruct (pe k0 rw0 (ed r)) as [[b es]|]; [apply IH|reflexivity].
  - intros pe rows e r bn be He. simpl. rewrite He. reflexivity.
Qed.

Lemma c8_scan_stops_after_symbol_table_witness :
  scan keep_elements (List.app [node_row "1" "phi"] (symbol_table_row :: [node_row "2" "phi"]))
    EmptyString (mkRegistry [] []) true true =
  scan keep_elements (List.app [node_row "1" "phi"] [symbol_table_row])
    EmptyString (mkRegistry [] []) true true /\
  scan keep_elements [["Symbol"; "table"; EmptyString]] EmptyString (mkRegistry [] []) true true
    = ScanCrash.
Proof.
  destruct c8_scan_stops_after_symbol_table as [Hs [Hc Hx]]. split.
  - apply (Hs keep_elements [node_row "1" "phi"] symbol_table_row [node_row "2" "phi"]
             EmptyString (mkRegistry [] []) true true "Symbol table:" SkipRow Hc).
    reflexivity.
  - apply Hx. reflexivity.
Defined.

Lemma mark_output_length l ns : List.length (mark_output l ns) = List.length ns.
Proof.
  induction ns as [|n ns IH]; simpl; [reflexivity|].
  destruct (Z.eqb (node_int_label n) l); simpl; congruence.
Qed.

Lemma no_output_loop_length cur first rows ns ns' :
  no_output_loop cur first rows ns = Some ns' -> List.length ns' = List.length ns.
Proof.
  revert cur ns. induction rows as [|rw rows IH]; intros cur ns H; simpl in H.
  - injection H as <-. apply mark_output_length.
  - destruct (row_label rw) as [l|]; [|discriminate].
    destruct (Z.eqb l first).
    + injection H as <-. apply mark_output_length.
    + rewrite (IH _ _ H). apply mark_output_length.
Qed.

Lemma no_output_mov_length mov ns ns' :
  no_output_mov mov ns = Some ns' -> List.length ns' = List.length ns.
Proof.
  unfold no_output_mov. destruct mov as [[|rw rows]|]; intros H; try discriminate.
  - injection H as <-. reflexivity.
  - destruct (row_label rw) as [f|]; [|discriminate].
    eapply no_output_loop_length; eassumption.
Qed.

Ltac destruct_pass :=
  repeat match goal with
  | |- context [parse_log_try ?a ?b ?c ?d ?e] =>
      destruct (parse_log_try a b c d e) as [[? ?]|]
  | |- context [scan ?a ?b ?c ?d ?e ?f] => destruct (scan a b c d e f)
  | |- context [no_output_mov ?a ?b] => destruct (no_output_mov a b)
  | |- context [no_output_nc ?a ?b] => destruct (no_output_nc a b)
  | |- context [out_scan ?a ?b] => destruct (out_scan a b) as [[?|]|]
  | |- context [Z.eqb ?a ?b] => destruct (Z.eqb a b)
  end.

(** [mbs.num_rows] only feeds [num_timesteps]: whatever its value, the
    pass ends the same way. *)
Lemma parse_log_file_num_rows_total pe pf inp r0 k :
  parse_log_file pe pf (with_num_rows k inp) r0 = None <->
  parse_log_file pe pf inp r0 = None.
Proof.
  destruct inp as [log mov out nc rows tl hx].
  unfold parse_log_file, parse_log_try, with_num_rows; simpl.
  destruct log, nc, out; simpl; destruct_pass; simpl; split; congruence.
Qed.

(** C9: after a text-backend pass that leaves at least one node,
    [mbs.num_nodes] is the number of nodes and [mbs.num_timesteps] is
    [int(num_rows/num_nodes)]; [num_rows = num_nodes * num_timesteps]
    exactly when [num_nodes] divides [num_rows]; and the divisibility
    does not make the pass fail: the status is [FINISHED] (or
    [OUT_NOT_FOUND]) and any other [num_rows] gives a result too. *)
Theorem c9_num_timesteps_from_rows :
  forall pe pf inp r0 res,
  in_use_netcdf inp = false ->
  parse_log_file pe pf inp r0 = Some res ->
  nd (res_registry res) <> [] ->
  let nn := Z.of_nat (List.length (nd (res_registry res))) in
  res_num_nodes res = Some nn /\
  res_num_timesteps res = Some (Z.quot (in_num_rows inp) nn) /\
  ((nn * Z.quot (in_num_rows inp) nn)%Z = in_num_rows inp <->
   Z.rem (in_num_rows inp) nn = 0%Z) /\
  (res_status res = FINISHED \/ res_status res = OUT_NOT_FOUND) /\
  (forall k, exists res', parse_log_file pe pf (with_num_rows k inp) r0 = Some res').
Proof.
  intros pe pf inp r0 res Hnc Hrun Hne nn.
  assert (Hdiv : (nn * Z.quot (in_num_rows inp) nn)%Z = in_num_rows inp <->
                 Z.rem (in_num_rows inp) nn = 0%Z).
  { pose proof (Z.quot_rem' (in_num_rows inp) nn). lia. }
  assert (Htot : forall k, exists res',
             parse_log_file pe pf (with_num_rows k inp) r0 = Some res').
  { intros k. destruct (parse_log_file pe pf (with_num_rows k inp) r0) eqn:E.
    - eexists; reflexivity.
    - apply parse_log_file_num_rows_total in E. congruence. }
  assert (Hm : res_num_nodes res = Some nn /\
               res_num_timesteps res = Some (Z.quot (in_num_rows inp) nn) /\
               (res_status res = FINISHED \/ res_status res = OUT_NOT_FOUND)).
  { unfold nn; clear nn Hdiv Htot.
    unfold parse_log_file in Hrun. rewrite Hnc in Hrun.
    destruct (parse_log_try pe inp _ _ _) as [[ret0 r2]|]; [|discriminate].
    destruct (Z.eqb (Z.of_nat (List.length (nd r2))) 0) eqn:Hnn.
    - destruct (in_out inp) as [| |rows]; [| |destruct (out_scan pf rows) as [[t|]|]];
        try discriminate; injection Hrun as <-; simpl in Hne;
        destruct (nd r2); simpl in Hnn; congruence.
    - destruct (no_output_mov (in_mov inp) (nd r2)) as [ns|] eqn:Hno; [|discriminate].
      apply no_output_mov_length in Hno.
      destruct (in_out inp) as [| |rows]; [| |destruct (out_scan pf rows) as [[t|]|]];
        try discriminate; try (rewrite andb_false_l in Hrun);
        injection Hrun as <-; simpl; rewrite Hno;
        (split; [reflexivity|split; [reflexivity|auto]]). }
  tauto.
Qed.

Lemma c9_num_timesteps_from_rows_witness :
  exists res,
    parse_log_file keep_elements float_of_int_string input_5 registry_5 = Some res /\
    res_num_nodes res = Some 5%Z /\ res_num_timesteps res = Some 10%Z.
Proof.
  eexists. split; [reflexivity|].
  destruct (c9_num_timesteps_from_rows keep_elements float_of_int_string input_5
              registry_5 _ eq_refl eq_refl) as [Hn [Ht _]].
  - simpl. discriminate.
  - rewrite Hn, Ht. split; reflexivity.
Defined.

End LogParserFacts.

Module BeamFacts.

Import Beam Samples.

Lemma py_set_nth_same {A} (l l' : list A) i v :
  py_set l i v = Some l' -> nth_error l' i = Some v.
Proof.
  revert l l'. induction i as [|i IH]; intros [|h t] l' H; simpl in H; try discriminate.
  - injection H as <-. reflexivity.
  - destruct (py_set t i v) as [t'|] eqn:E; simpl in H; [|discriminate].
    injection H as <-. simpl. exact (IH _ _ E).
Qed.

Lemma py_set_nth_other {A} (l l' : list A) i j v :
  py_set l i v = Some l' -> i <> j -> nth_error l' j = nth_error l j.
Proof.
  revert l l' j. induction i as [|i IH]; intros [|h t] l' j H Hij; simpl in H; try discriminate.
  - injection H as <-. destruct j; [congruence|reflexivity].
  - destruct (py_set t i v) as [t'|] eqn:E; simpl in H; [|discriminate].
    injection H as <-. destruct j; [reflexivity|]. simpl. apply (IH t t' j E). lia.
Qed.

Lemma find_elem_name name l e :
  find_elem name l = Some e -> elem_name e = name.
Proof.
  unfold find_elem. intros H. apply find_some in H as [_ H].
  apply String.eqb_eq in H. exact H.
Qed.

Lemma find_replace_elem name e' l :
  elem_name e' = name -> (exists e, find_elem name l = Some e) ->
  find_elem name (replace_elem name e' l) = Some e'.
Proof.
  intros Hn [e He]. induction l as [|x t IH]; simpl in *; [discriminate|].
  destruct (String.eqb (elem_name x) name) eqn:Ex; simpl.
  - rewrite Hn, String.eqb_refl. reflexivity.
  - rewrite Ex. apply IH. exact He.
Qed.

(** C10: a beam3 row for an element already registered under
    ['beam3_' + rw[1]] writes the columns 11-13 vector into
    [offsets[1]] (over the columns 7-9 vector written just before) and
    leaves [offsets[2]] as it was; a row for a new element creates it
    with the columns 11-13 vector in [offsets[2]]. *)
Theorem c10_beam3_reimport_third_offset_stale :
  forall pf rw elems l1 b elems',
  py_index rw 1 = Some l1 ->
  parse_beam3 pf rw elems = Some (b, elems') ->
  (forall el, find_elem ("beam3_" ++ l1) elems = Some el ->
     b = true /\
     exists el' v1 v2,
       find_elem ("beam3_" ++ l1) elems' = Some el' /\
       vec_at pf rw 7 = Some v1 /\ vec_at pf rw 11 = Some v2 /\
       nth_error (elem_offsets el') 1 = Some v2 /\
       nth_error (elem_offsets el') 2 = nth_error (elem_offsets el) 2) /\
  (find_elem ("beam3_" ++ l1) elems = None ->
     b = false /\
     exists el v2,
       elems' = List.app elems [el] /\ vec_at pf rw 11 = Some v2 /\
       nth_error (elem_offsets el) 2 = Some v2).
Proof.
  intros pf rw elems l1 b elems' H1 Hp.
  unfold parse_beam3 in Hp. rewrite H1 in Hp. cbv beta iota zeta in Hp.
  split.
  - intros el Hf. rewrite Hf in Hp.
    destruct (beam3_update pf rw el) as [el'|] eqn:Hu; [|discriminate].
    injection Hp as <- <-. split; [reflexivity|].
    unfold beam3_update in Hu.
    destruct (int_at rw 2) as [n0|]; [|discriminate].
    destruct (py_set (elem_nodes el) 0 n0) as [ns0|]; [|discriminate].
    destruct (int_at rw 6) as [n1|]; [|discriminate].
    destruct (py_set ns0 1 n1) as [ns1|]; [|discriminate].
    destruct (int_at rw 10) as [n2|]; [|discriminate].
    destruct (py_set ns1 2 n2) as [l3|]; [|discriminate].
    destruct (vec_at pf rw 3) as [v0|]; [|discriminate].
    destruct (py_set (elem_offsets el) 0 v0) as [os0|] eqn:E0; [|discriminate].
    destruct (vec_at pf rw 7) as [v1|]; [|discriminate].
    destruct (py_set os0 1 v1) as [os1|] eqn:E1; [|discriminate].
    destruct (vec_at pf rw 11) as [v2|]; [|discriminate].
    destruct (py_set os1 1 v2) as [os2|] eqn:E2; [|discriminate].
    injection Hu as <-.
    exists (with_nodes_offsets el l3 os2 "elem.beam" true), v1, v2.
    split; [|split; [reflexivity|split; [reflexivity|split]]].
    + apply find_replace_elem; [simpl; apply (find_elem_name _ _ _ Hf)|eauto].
    + change (nth_error os2 1 = Some v2). apply (py_set_nth_same _ _ _ _ E2).
    + change (nth_error os2 2 = nth_error (elem_offsets el) 2). rewrite (py_set_nth_other _ _ _ _ _ E2), (py_set_nth_other _ _ _ _ _ E1),
               (py_set_nth_other _ _ _ _ _ E0) by lia. reflexivity.
  - intros Hf. rewrite Hf in Hp.
    destruct (beam3_create pf rw) as [el|] eqn:Hc; [|discriminate].
    injection Hp as <- <-. split; [reflexivity|].
    unfold beam3_create in Hc.
    destruct (int_at rw 1); [|discriminate].
    destruct (int_at rw 2); [|discriminate].
    destruct (vec_at pf rw 3); [|discriminate].
    destruct (int_at rw 6); [|discriminate].
    destruct (vec_at pf rw 7); [|discriminate].
    destruct (int_at rw 10); [|discriminate].
    destruct (vec_at pf rw 11) as [v2|]; [|discriminate].
    injection Hc as <-. eexists; exists v2. split; [reflexivity|split; reflexivity].
Qed.

Lemma c10_beam3_reimport_third_offset_stale_witness :
  parse_beam3 float_of_int_string beam3_row [beam3_7]
  = Some (true, [with_nodes_offsets beam3_7 [1; 2; 3]%Z
                   [(1, 1, 1); (3, 3, 3); (0, 0, 0)]%Q "elem.beam" true]) /\
  exists el',
    find_elem "beam3_7" [with_nodes_offsets beam3_7 [1; 2; 3]%Z
                   [(1, 1, 1); (3, 3, 3); (0, 0, 0)]%Q "elem.beam" true] = Some el' /\
    nth_error (elem_offsets el') 2 = nth_error (elem_offsets beam3_7) 2.
Proof.
  split; [reflexivity|].
  destruct (c10_beam3_reimport_third_offset_stale float_of_int_string beam3_row [beam3_7]
              "7" true [with_nodes_offsets beam3_7 [1; 2; 3]%Z
                   [(1, 1, 1); (3, 3, 3); (0, 0, 0)]%Q "elem.beam" true]
              eq_refl eq_refl) as [Hupd _].
  destruct (Hupd beam3_7 eq_refl) as [_ (el' & v1 & v2 & Hf & _ & _ & _ & H2)].
  exists el'. split; [exact Hf|exact H2].
Defined.


Lemma find_elem_app_found name l e :
  find_elem name l = None -> elem_name e = name -> find_elem name (List.app l [e]) = Some e.
Proof.
  unfold find_elem. intros H He. induction l as [|x t IH]; simpl in *.
  - rewrite He, String.eqb_refl. reflexivity.
  - destruct (String.eqb (elem_name x) name); [discriminate|]. exact (IH H).
Qed.

Lemma find_elem_app_none name l e :
  find_elem name l = None -> elem_name e <> name -> find_elem name (List.app l [e]) = None.
Proof.
  unfold find_elem. intros H He. induction l as [|x t IH]; simpl in *.
  - destruct (String.eqb (elem_name e) name) eqn:E; [|reflexivity].
    apply String.eqb_eq in E. congruence.
  - destruct (String.eqb (elem_name x) name); [discriminate|]. exact (IH H).
Qed.

Lemma replace_elem_app_last name l e e' :
  find_elem name l = None -> elem_name e = name ->
  replace_elem name e' (List.app l [e]) = List.app l [e'].
Proof.
  unfold find_elem. intros H He. induction l as [|x t IH]; simpl in *.
  - rewrite He, String.eqb_refl. reflexivity.
  - destruct (String.eqb (elem_name x) name); [discriminate|]. rewrite (IH H). reflexivity.
Qed.

Lemma beam2_create_name pf rw e :
  beam2_create pf rw = Some e ->
  exists l, int_at rw 1 = Some l /\ elem_name e = "beam2_" ++ py_str_Z l.
Proof.
  unfold beam2_create. destruct (int_at rw 1) as [l|]; [|discriminate].
  destruct (int_at rw 2); [|discriminate]. destruct (vec_at pf rw 3); [|discriminate].
  destruct (int_at rw 6); [|discriminate]. destruct (vec_at pf rw 7); [|discriminate].
  intros H. injection H as <-. exists l. split; reflexivity.
Qed.

Lemma beam3_create_name pf rw e :
  beam3_create pf rw = Some e ->
  exists l, int_at rw 1 = Some l /\ elem_name e = "beam3_" ++ py_str_Z l.
Proof.
  unfold beam3_create. destruct (int_at rw 1) as [l|]; [|discriminate].
  destruct (int_at rw 2); [|discriminate]. destruct (vec_at pf rw 3); [|discriminate].
  destruct (int_at rw 6); [|discriminate]. destruct (vec_at pf rw 7); [|discriminate].
  destruct (int_at rw 10); [|discriminate]. destruct (vec_at pf rw 11); [|discriminate].
  intros H. injection H as <-. exists l. split; reflexivity.
Qed.

Lemma beam2_update_create pf rw e :
  beam2_create pf rw = Some e -> beam2_update pf rw e = Some e.
Proof.
  unfold beam2_create, beam2_update.
  destruct (int_at rw 1) as [l|]; [|discriminate].
  destruct (int_at rw 2) as [n0|]; [|discriminate].
  destruct (vec_at pf rw 3) as [v0|]; [|discriminate].
  destruct (int_at rw 6) as [n1|]; [|discriminate].
  destruct (vec_at pf rw 7) as [v1|]; [|discriminate].
  intros H. injection H as <-. reflexivity.
Qed.

Lemma append_cancel_l (p a b : string) : p ++ a = p ++ b -> a = b.
Proof. induction p; simpl; [auto|]. intros H. injection H. auto. Qed.

(** Extra property (parse_beam2): once a beam2 row whose label is
    written as [str(int(label))] has created its element, parsing the
    same row again finds that element and leaves [ed] as it is. *)
Theorem beam2_reparse_stable pf rw elems elems' s :
  py_index rw 1 = Some s ->
  (forall l, py_int s = Some l -> py_str_Z l = s) ->
  parse_beam2 pf rw elems = Some (false, elems') ->
  parse_beam2 pf rw elems' = Some (true, elems').
Proof.
  intros H1 Hs Hp. unfold parse_beam2 in *. rewrite H1 in *.
  cbv beta iota zeta in Hp |- *.
  destruct (find_elem ("beam2_" ++ s) elems) as [el|] eqn:Hf.
  - destruct (beam2_update pf rw el); discriminate.
  - destruct (beam2_create pf rw) as [e|] eqn:Hc; [|discriminate].
    injection Hp as <-.
    destruct (beam2_create_name _ _ _ Hc) as [l [Hl Hn]].
    unfold int_at in Hl. rewrite H1 in Hl. cbv beta iota in Hl.
    rewrite (Hs l Hl) in Hn.
    rewrite (find_elem_app_found _ _ _ Hf Hn), (beam2_update_create _ _ _ Hc).
    rewrite (replace_elem_app_last _ _ _ _ Hf Hn). reflexivity.
Qed.

Lemma beam2_reparse_stable_witness :
  exists e,
  parse_beam2 float_of_int_string beam2_row [beam3_7] = Some (false, [beam3_7; e]) /\
  parse_beam2 float_of_int_string beam2_row [beam3_7; e] = Some (true, [beam3_7; e]).
Proof.
  destruct (beam2_create float_of_int_string beam2_row) as [e|] eqn:E;
    [|vm_compute in E; discriminate].
  assert (Hp : parse_beam2 float_of_int_string beam2_row [beam3_7] =
               Some (false, [beam3_7; e])).
  { unfold parse_beam2. simpl py_index. cbv beta iota zeta.
    replace (find_elem ("beam2_" ++ "7") [beam3_7]) with (@None elem) by reflexivity.
    rewrite E. reflexivity. }
  exists e. split; [exact Hp|].
  apply (beam2_reparse_stable float_of_int_string beam2_row [beam3_7] _ "7").
  - reflexivity.
  - intros l Hl. vm_compute in Hl. injection Hl as <-. reflexivity.
  - exact Hp.
Defined.

(** Extra property (parse_beam2, parse_beam3): the element a row creates
    is named after [str(int(rw[1]))] while the lookup uses [rw[1]] as
    written; when the two differ (a label such as ["07"]), the created
    element is never found again and each parse of the row appends one
    more element. *)
Theorem beam_noncanonical_label_duplicates pf rw elems s :
  py_index rw 1 = Some s ->
  (forall l, py_int s = Some l -> py_str_Z l <> s) ->
  (forall e, find_elem ("beam2_" ++ s) elems = None -> beam2_create pf rw = Some e ->
     parse_beam2 pf rw elems = Some (false, List.app elems [e]) /\
     find_elem ("beam2_" ++ s) (List.app elems [e]) = None /\
     parse_beam2 pf rw (List.app elems [e]) = Some (false, List.app (List.app elems [e]) [e])) /\
  (forall e, find_elem ("beam3_" ++ s) elems = None -> beam3_create pf rw = Some e ->
     parse_beam3 pf rw elems = Some (false, List.app elems [e]) /\
     find_elem ("beam3_" ++ s) (List.app elems [e]) = None /\
     parse_beam3 pf rw (List.app elems [e]) = Some (false, List.app (List.app elems [e]) [e])).
Proof.
  intros H1 Hs. split; intros e Hf Hc.
  - destruct (beam2_create_name _ _ _ Hc) as [l [Hl Hn]].
    unfold int_at in Hl. rewrite H1 in Hl. cbv beta iota in Hl.
    assert (Hf' : find_elem ("beam2_" ++ s) (List.app elems [e]) = None).
    { apply find_elem_app_none; [exact Hf|]. rewrite Hn. intros E.
      apply (Hs l Hl). exact (append_cancel_l "beam2_" _ _ E). }
    unfold parse_beam2. rewrite H1. cbv beta iota zeta.
    rewrite Hf, Hf', Hc. split; [reflexivity|split; [reflexivity|reflexivity]].
  - destruct (beam3_create_name _ _ _ Hc) as [l [Hl Hn]].
    unfold int_at in Hl. rewrite H1 in Hl. cbv beta iota in Hl.
    assert (Hf' : find_elem ("beam3_" ++ s) (List.app elems [e]) = None).
    { apply find_elem_app_none; [exact Hf|]. rewrite Hn. intros E.
      apply (Hs l Hl). exact (append_cancel_l "beam3_" _ _ E). }
    unfold parse_beam3. rewrite H1. cbv beta iota zeta.
    rewrite Hf, Hf', Hc. split; [reflexivity|split; [reflexivity|reflexivity]].
Qed.

Lemma beam_noncanonical_label_duplicates_witness :
  exists e2 e3,
  parse_beam2 float_of_int_string beam2_row_07 [] = Some (false, [e2]) /\
  parse_beam2 float_of_int_string beam2_row_07 [e2] = Some (false, [e2; e2]) /\
  parse_beam3 float_of_int_string beam3_row_07 [] = Some (false, [e3]) /\
  parse_beam3 float_of_int_string beam3_row_07 [e3] = Some (false, [e3; e3]).
Proof.
  destruct (beam2_create float_of_int_string beam2_row_07) as [e2|] eqn:E2;
    [|vm_compute in E2; discriminate].
  destruct (beam3_create float_of_int_string beam3_row_07) as [e3|] eqn:E3;
    [|vm_compute in E3; discriminate].
  destruct (beam_noncanonical_label_duplicates float_of_int_string beam2_row_07 [] "07"
              eq_refl) as [H2 _].
  { intros l Hl. vm_compute in Hl. injection Hl as <-. discriminate. }
  destruct (beam_noncanonical_label_duplicates float_of_int_string beam3_row_07 [] "07"
              eq_refl) as [_ H3].
  { intros l Hl. vm_compute in Hl. injection Hl as <-. discriminate. }
  destruct (H2 e2 eq_refl E2) as [A2 [_ B2]].
  destruct (H3 e3 eq_refl E3) as [A3 [_ B3]].
  exists e2, e3. auto.
Defined.

End BeamFacts.

Module LabelFacts.

Import Labels Samples.

Section Generic.

Context {A : Type} `{LabelledLaws A}.

Lemma label_loop_erase l s xs :
  map erase_label (snd (label_loop l s xs)) = map erase_label xs.
Proof.
  induction xs as [|x xs IH]; simpl; [reflexivity|].
  destruct (Z.eqb (int_label x) l).
  - destruct (negb (String.eqb (string_label x) s)); simpl; [rewrite erase_set|]; reflexivity.
  - destruct (label_loop l s xs) as [b t'] eqn:E. simpl in *. rewrite IH. reflexivity.
Qed.

Lemma label_loop_false l s xs :
  fst (label_loop l s xs) = false -> snd (label_loop l s xs) = xs.
Proof.
  induction xs as [|x xs IH]; simpl; [reflexivity|].
  destruct (Z.eqb (int_label x) l).
  - destruct (negb (String.eqb (string_label x) s)); simpl; [discriminate|reflexivity].
  - destruct (label_loop l s xs) as [b t'] eqn:E. simpl in *. intros Hb.
    rewrite IH by exact Hb. reflexivity.
Qed.

Lemma label_loop_first l s pre n post :
  Forall (fun m => int_label m <> l) pre -> int_label n = l ->
  snd (label_loop l s (List.app pre (n :: post))) =
  List.app pre ((if String.eqb (string_label n) s then n else set_string_label s n) :: post).
Proof.
  intros Hpre Hn. induction Hpre as [|m pre Hm Hpre IH]; simpl.
  - rewrite Hn, Z.eqb_refl. destruct (String.eqb (string_label n) s); reflexivity.
  - apply Z.eqb_neq in Hm. rewrite Hm.
    destruct (label_loop l s (List.app pre (n :: post))) as [b t'] eqn:E.
    simpl in *. rewrite IH. reflexivity.
Qed.

Lemma label_loop_none l s xs :
  Forall (fun m => int_label m <> l) xs -> snd (label_loop l s xs) = xs.
Proof.
  intros Hxs. induction Hxs as [|m xs Hm Hxs IH]; simpl; [reflexivity|].
  apply Z.eqb_neq in Hm. rewrite Hm.
  destruct (label_loop l s xs) as [b t'] eqn:E. simpl in *. rewrite IH. reflexivity.
Qed.

Lemma assign_label_frame free line et ss (xs xs' : list A) b :
  assign_label free line et ss xs = Some (b, xs') ->
  map erase_label xs' = map erase_label xs /\ (b = false -> xs' = xs).
Proof.
  unfold assign_label. destruct (py_int _) as [li|]; [|discriminate].
  intros E. injection E. intros.
  match type of E with
  | Some (label_loop ?l ?s ?ys) = _ =>
      pose proof (label_loop_erase l s ys); pose proof (label_loop_false l s ys);
      destruct (label_loop l s ys) as [b0 t0]
  end.
  injection E as <- <-. simpl in *. split; [assumption|]. intros ->. auto.
Qed.

Lemma label_loop_unmatched l s xs i x x' :
  nth_error xs i = Some x -> nth_error (snd (label_loop l s xs)) i = Some x' ->
  int_label x <> l -> x' = x.
Proof.
  revert i. induction xs as [|y xs IH]; intros i Hx Hx' Hne; [destruct i; discriminate|].
  simpl in Hx'. destruct (Z.eqb (int_label y) l) eqn:E.
  - destruct i as [|i]; simpl in Hx.
    + injection Hx as <-. apply Z.eqb_eq in E. contradiction.
    + destruct (negb _); simpl in Hx'; congruence.
  - destruct (label_loop l s xs) as [b t'] eqn:El. simpl in Hx'.
    destruct i as [|i]; simpl in Hx, Hx'; [congruence|].
    exact (IH i Hx Hx' Hne).
Qed.

Lemma only_matched_refl lines (xs : list A) : only_matched lines xs xs.
Proof. intros i x x' H1 H2 _. congruence. Qed.

Lemma assign_label_matched free line et ss (xs xs' : list A) b :
  assign_label free line et ss xs = Some (b, xs') -> only_matched [line] xs xs'.
Proof.
  unfold assign_label. destruct (py_int _) as [li|] eqn:Ep; [|discriminate].
  intros E. injection E as E. intros i x x' Hx Hx' Hno.
  match type of E with label_loop _ ?ls _ = _ =>
    apply (label_loop_unmatched li ls xs i x x' Hx); [rewrite E; exact Hx'|] end.
  intros Hl. apply (Hno line); [left; reflexivity|].
  unfold line_label_int. rewrite Ep, Hl. reflexivity.
Qed.

Lemma only_matched_cons line rest (xs xs1 xs' : list A) :
  map erase_label xs1 = map erase_label xs ->
  only_matched [line] xs xs1 -> only_matched rest xs1 xs' -> only_matched (line :: rest) xs xs'.
Proof.
  intros Her H1 H2 i x x' Hx Hx' Hno.
  pose proof (f_equal (fun l => nth_error l i) Her) as Hn. simpl in Hn.
  rewrite !nth_error_map, Hx in Hn.
  destruct (nth_error xs1 i) as [x1|] eqn:Hx1; [|discriminate].
  assert (E1 : x1 = x).
  { apply (H1 i x x1 Hx Hx1). intros ln [<-|[]]. apply Hno. left. reflexivity. }
  subst x1. apply (H2 i x x' Hx1 Hx'). intros ln Hin. apply Hno. right. exact Hin.
Qed.

Lemma map_int_label_erase (xs ys : list A) :
  map erase_label xs = map erase_label ys -> map int_label xs = map int_label ys.
Proof.
  revert ys. induction xs as [|x xs IH]; intros [|y ys] E; simpl in *; try discriminate;
    [reflexivity|].
  injection E as Exy Exs. rewrite (IH ys Exs).
  rewrite <- (int_label_erase x), <- (int_label_erase y), Exy. reflexivity.
Qed.

End Generic.

Lemma same_but_labels_trans st1 st2 st3 :
  same_but_labels st1 st2 -> same_but_labels st2 st3 -> same_but_labels st1 st3.
Proof. unfold same_but_labels. intros (? & ? & ?) (? & ? & ?). repeat split; congruence. Qed.

Lemma free_line_frame line st b st' :
  free_line line st = Some (b, st') ->
  same_but_labels st st' /\ (b = false -> st' = st).
Proof.
  unfold free_line. destruct (first_match set_strings_any line) as [ss|].
  - destruct (assign_label true line EmptyString ss (ls_nodes st)) as [[b1 ns]|] eqn:E1;
      [|discriminate].
    destruct (assign_label true line EmptyString ss (ls_elems st)) as [[b2 es]|] eqn:E2;
      [|discriminate].
    destruct (assign_label true line EmptyString ss (ls_refs st)) as [[b3 rs]|] eqn:E3;
      [|discriminate].
    intros E. injection E as <- <-.
    apply assign_label_frame in E1 as [F1 G1].
    apply assign_label_frame in E2 as [F2 G2].
    apply assign_label_frame in E3 as [F3 G3].
    split; [repeat split; assumption|].
    intros Hb. apply orb_false_elim in Hb as [Hb Hb3]. apply orb_false_elim in Hb as [Hb1 Hb2].
    rewrite (G1 Hb1), (G2 Hb2), (G3 Hb3). destruct st; reflexivity.
  - intros E. injection E as <- <-. split; [repeat split|reflexivity].
Qed.

Ltac standard_branch E st :=
  let b0 := fresh "b" in let l0 := fresh "l" in let Ea := fresh "Ea" in
  match type of E with
  | option_map _ (assign_label ?f ?ln ?et ?ss ?xs) = _ =>
      destruct (assign_label f ln et ss xs) as [[b0 l0]|] eqn:Ea; [|discriminate];
      simpl in E; injection E as <- <-;
      apply assign_label_frame in Ea as [F G];
      split; [unfold same_but_labels; simpl; repeat split; assumption
             |intros Hb; rewrite (G Hb); destruct st; reflexivity]
  end.

Lemma standard_line_frame line st b st' :
  standard_line line st = Some (b, st') ->
  same_but_labels st st' /\ (b = false -> st' = st).
Proof.
  unfold standard_line. intros E.
  destruct (first_match set_strings_node line); [standard_branch E st|].
  destruct (first_match set_strings_joint line); [standard_branch E st|].
  destruct (first_match set_strings_beam line); [standard_branch E st|].
  destruct (first_match set_strings_refs line); [standard_branch E st|].
  injection E as <- <-. split; [repeat split|reflexivity].
Qed.

Lemma label_lines_frame free lines c st c' st' :
  label_lines free lines c st = Some (c', st') ->
  same_but_labels st st' /\ (c' = false -> c = false /\ st' = st).
Proof.
  revert c st. induction lines as [|line lines IH]; intros c st E; simpl in E.
  - injection E as <- <-. split; [repeat split|auto].
  - destruct (if free then free_line line st else standard_line line st)
      as [[b st1]|] eqn:El; [|discriminate].
    assert (Hl : same_but_labels st st1 /\ (b = false -> st1 = st)).
    { destruct free; [exact (free_line_frame _ _ _ _ El)|exact (standard_line_frame _ _ _ _ El)]. }
    destruct Hl as [F1 G1]. destruct (IH _ _ E) as [F2 G2].
    split; [eapply same_but_labels_trans; eassumption|].
    intros Hc. destruct (G2 Hc) as [Hcb ->]. apply orb_false_elim in Hcb as [-> Hb].
    auto.
Qed.

Lemma free_line_matched line st b st' :
  free_line line st = Some (b, st') ->
  only_matched [line] (ls_nodes st) (ls_nodes st') /\
  only_matched [line] (ls_elems st) (ls_elems st') /\
  only_matched [line] (ls_refs st) (ls_refs st').
Proof.
  unfold free_line. destruct (first_match set_strings_any line) as [ss|].
  - destruct (assign_label true line EmptyString ss (ls_nodes st)) as [[b1 ns]|] eqn:E1;
      [|discriminate].
    destruct (assign_label true line EmptyString ss (ls_elems st)) as [[b2 es]|] eqn:E2;
      [|discriminate].
    destruct (assign_label true line EmptyString ss (ls_refs st)) as [[b3 rs]|] eqn:E3;
      [|discriminate].
    intros E. injection E as <- <-. simpl.
    split; [exact (assign_label_matched _ _ _ _ _ _ _ E1)|].
    split; [exact (assign_label_matched _ _ _ _ _ _ _ E2)|].
    exact (assign_label_matched _ _ _ _ _ _ _ E3).
  - intros E. injection E as <- <-. split; [|split]; apply only_matched_refl.
Qed.

Ltac standard_matched E :=
  let b0 := fresh "b" in let l0 := fresh "l" in let Ea := fresh "Ea" in
  match type of E with
  | option_map _ (assign_label ?f ?ln ?et ?ss ?xs) = _ =>
      destruct (assign_label f ln et ss xs) as [[b0 l0]|] eqn:Ea; [|discriminate];
      simpl in E; injection E as <- <-; simpl;
      repeat split; first [exact (assign_label_matched _ _ _ _ _ _ _ Ea) | apply only_matched_refl]
  end.

Lemma standard_line_matched line st b st' :
  standard_line line st = Some (b, st') ->
  only_matched [line] (ls_nodes st) (ls_nodes st') /\
  only_matched [line] (ls_elems st) (ls_elems st') /\
  only_matched [line] (ls_refs st) (ls_refs st').
Proof.
  unfold standard_line. intros E.
  destruct (first_match set_strings_node line); [standard_matched E|].
  destruct (first_match set_strings_joint line); [standard_matched E|].
  destruct (first_match set_strings_beam line); [standard_matched E|].
  destruct (first_match set_strings_refs line); [standard_matched E|].
  injection E as <- <-. split; [|split]; apply only_matched_refl.
Qed.

Lemma label_lines_matched free lines c st c' st' :
  label_lines free lines c st = Some (c', st') ->
  only_matched lines (ls_nodes st) (ls_nodes st') /\
  only_matched lines (ls_elems st) (ls_elems st') /\
  only_matched lines (ls_refs st) (ls_refs st').
Proof.
  revert c st. induction lines as [|line lines IH]; intros c st E; simpl in E.
  - injection E as <- <-. split; [|split]; apply only_matched_refl.
  - destruct (if free then free_line line st else standard_line line st)
      as [[b st1]|] eqn:El; [|discriminate].
    assert (Hl : same_but_labels st st1 /\
                 (only_matched [line] (ls_nodes st) (ls_nodes st1) /\
                  only_matched [line] (ls_elems st) (ls_elems st1) /\
                  only_matched [line] (ls_refs st) (ls_refs st1))).
    { destruct free.
      - split; [exact (proj1 (free_line_frame _ _ _ _ El))|exact (free_line_matched _ _ _ _ El)].
      - split; [exact (proj1 (standard_line_frame _ _ _ _ El))
               |exact (standard_line_matched _ _ _ _ El)]. }
    destruct Hl as [(Fn & Fe & Fr) (Mn & Me & Mr)]. destruct (IH _ _ E) as (In' & Ie & Ir).
    split; [|split]; eapply only_matched_cons; eassumption.
Qed.

Lemma first_match_node_42 :
  first_match set_strings_node node_42_line = Some "  integer Node_".
Proof. reflexivity. Qed.

Lemma assign_label_node_42 (nodes : list node) :
  assign_label false node_42_line "node" "  integer Node_" nodes =
  Some (label_loop 17 "Node_42" nodes).
Proof. reflexivity. Qed.

Lemma assign_labels_node_42 nodes elems refs :
  assign_labels false (Some [node_42_line]) (mkLS nodes elems refs) =
  Some (if fst (label_loop 17 "Node_42" nodes) then LABELS_UPDATED else NOTHING_DONE,
        mkLS (snd (label_loop 17 "Node_42" nodes)) elems refs).
Proof.
  unfold assign_labels, label_lines, standard_line.
  rewrite first_match_node_42. simpl ls_nodes. rewrite assign_label_node_42.
  destruct (label_loop 17 "Node_42" nodes) as [b ns]. destruct b; reflexivity.
Qed.

(** C5 (counterexample): with the log line [  integer Node_42 = 17] in
    standard label mode, node 17's string label becomes ["Node_42"], not
    ["42"]: the slice starts [len("node") + 1] characters before the end
    of the set string, so it keeps the [Node_] prefix. *)
Lemma c5_label_keeps_prefix :
  exists st', assign_labels false (Some [node_42_line]) label_state_0
              = Some (LABELS_UPDATED, st') /\
  map node_string_label (ls_nodes st') = ["Node_42"; "none"] /\
  ~ In "42" (map node_string_label (ls_nodes st')).
Proof.
  eexists. split; [vm_compute; reflexivity|]. split; [reflexivity|].
  simpl. intros [H|[H|H]]; [discriminate|discriminate|exact H].
Qed.

(** C5 (amended): for any registry, the log holding the single line
    [  integer Node_42 = 17] in standard label mode sets the string label
    of the first node with integer label 17 to ["Node_42"] (the set-string
    prefix is kept), changes no other node, and leaves elements and
    references alone; without such a node nothing changes. *)
Theorem c5_node_label_with_prefix (nodes : list node) (elems : list elem)
    (refs : list reference) :
  exists ret st',
    assign_labels false (Some [node_42_line]) (mkLS nodes elems refs) = Some (ret, st') /\
    ls_elems st' = elems /\ ls_refs st' = refs /\
    (forall pre n post,
        Forall (fun m => node_int_label m <> 17%Z) pre ->
        node_int_label n = 17%Z ->
        nodes = List.app pre (n :: post) ->
        ls_nodes st' = List.app pre (set_string_label "Node_42" n :: post)) /\
    (Forall (fun m => node_int_label m <> 17%Z) nodes -> ls_nodes st' = nodes).
Proof.
  rewrite assign_labels_node_42. do 2 eexists. split; [reflexivity|].
  simpl. split; [reflexivity|]. split; [reflexivity|]. split.
  - intros pre n post Hpre Hn ->.
    rewrite (label_loop_first (A:=node) 17%Z "Node_42" pre n post); [|exact Hpre|exact Hn].
    destruct (String.eqb (string_label n) "Node_42") eqn:E; [|reflexivity].
    apply String.eqb_eq in E. destruct n; simpl in *; subst; reflexivity.
  - intros Hn. apply (label_loop_none (A:=node) 17%Z "Node_42" nodes); exact Hn.
Qed.

Lemma c5_node_label_with_prefix_witness :
  exists ret st',
    assign_labels false (Some [node_42_line]) label_state_0 = Some (ret, st') /\
    ls_nodes st' = [set_string_label "Node_42" (imported_node 17 "PHI" "Node.017");
                    imported_node 18 "PHI" "Node.018"].
Proof.
  destruct (c5_node_label_with_prefix label_nodes [] []) as (ret & st' & E & _ & _ & Hn & _).
  exists ret, st'. split; [exact E|].
  apply (Hn [] (imported_node 17 "PHI" "Node.017") [imported_node 18 "PHI" "Node.018"]);
    [constructor|reflexivity|reflexivity].
Defined.

(** C6 (counterexample): a symbol-table line whose value is not an
    integer makes [int()] raise [ValueError], which [assign_labels] does
    not catch: no status is returned. *)
Lemma c6_malformed_line_raises :
  assign_labels false (Some [bad_label_line]) label_state_0 = None.
Proof. vm_compute. reflexivity. Qed.

(** C6 (amended): whenever [assign_labels] returns (no [ValueError]), the
    three collections keep their items, in order, up to string labels, so
    their integer labels are unchanged, and an item whose integer label
    is read from no line of the log is left as it was; [FILE_NOT_FOUND]
    is returned exactly when the log cannot be opened, and then nothing
    changes; [NOTHING_DONE] means nothing changed; any change means
    [LABELS_UPDATED].  [labels_changed] records assignments, not their
    net effect: in free-label mode the lines [  integer Node_42 = 17]
    and [  integer none = 17] rename node 17 and rename it back, and
    the result is [LABELS_UPDATED] with the registry as it was. *)
Theorem c6_labels_frame_and_status :
  (forall (free : bool) (log : option (list string)) (st st' : label_state)
          (ret : label_status),
   assign_labels free log st = Some (ret, st') ->
   map erase_label (ls_nodes st') = map erase_label (ls_nodes st) /\
   map erase_label (ls_elems st') = map erase_label (ls_elems st) /\
   map erase_label (ls_refs st') = map erase_label (ls_refs st) /\
   map node_int_label (ls_nodes st') = map node_int_label (ls_nodes st) /\
   map elem_int_label (ls_elems st') = map elem_int_label (ls_elems st) /\
   map ref_int_label (ls_refs st') = map ref_int_label (ls_refs st) /\
   (forall lines, log = Some lines ->
      only_matched lines (ls_nodes st) (ls_nodes st') /\
      only_matched lines (ls_elems st) (ls_elems st') /\
      only_matched lines (ls_refs st) (ls_refs st')) /\
   (ret = FILE_NOT_FOUND <-> log = None) /\
   (log = None -> st' = st) /\
   (ret = NOTHING_DONE -> st' = st) /\
   (st' <> st -> ret = LABELS_UPDATED)) /\
  assign_labels true (Some [node_42_line; none_17_line]) label_state_0
    = Some (LABELS_UPDATED, label_state_0).
Proof.
  split; [|vm_compute; reflexivity].
  intros free log st st' ret E.
  assert (K : same_but_labels st st' /\ (ret = FILE_NOT_FOUND <-> log = None) /\
              (log = None -> st' = st) /\ (ret = NOTHING_DONE -> st' = st)).
  { unfold assign_labels in E. destruct log as [lines|].
    - destruct (label_lines free lines false st) as [[c st1]|] eqn:El; [|discriminate].
      injection E as <- <-. apply label_lines_frame in El as [F G].
      split; [exact F|]. split; [destruct c; split; discriminate|].
      split; [discriminate|]. destruct c; [discriminate|]. intros _. apply G; reflexivity.
    - injection E as <- <-. split; [repeat split|]. split; [split; reflexivity|]. auto. }
  destruct K as [(Fn & Fe & Fr) (Hf & Hl & Hn)].
  split; [exact Fn|]. split; [exact Fe|]. split; [exact Fr|].
  split; [exact (map_int_label_erase _ _ Fn)|].
  split; [exact (map_int_label_erase _ _ Fe)|].
  split; [exact (map_int_label_erase _ _ Fr)|].
  split.
  { intros lines ->. unfold assign_labels in E.
    destruct (label_lines free lines false st) as [[c st1]|] eqn:El; [|discriminate].
    injection E as _ <-. exact (label_lines_matched _ _ _ _ _ _ El). }
  split; [exact Hf|]. split; [exact Hl|]. split; [exact Hn|].
  intros Hne. destruct ret; [reflexivity| |].
  - exfalso. apply Hne, Hn. reflexivity.
  - exfalso. apply Hne, Hl, Hf. reflexivity.
Qed.

Lemma c6_labels_frame_and_status_witness :
  exists st', assign_labels false (Some [node_42_line]) label_state_0 = Some (LABELS_UPDATED, st') /\
  map node_int_label (ls_nodes st') = [17%Z; 18%Z] /\
  (forall x', nth_error (ls_nodes st') 1 = Some x' -> x' = imported_node 18 "PHI" "Node.018").
Proof.
  eexists. assert (E : assign_labels false (Some [node_42_line]) label_state_0 =
    Some (LABELS_UPDATED, mkLS [set_string_label "Node_42" (imported_node 17 "PHI" "Node.017");
                                imported_node 18 "PHI" "Node.018"] [] [])) by (vm_compute; reflexivity).
  split; [exact E|].
  destruct (proj1 c6_labels_frame_and_status false (Some [node_42_line]) label_state_0 _ _ E)
    as (_ & _ & _ & Hi & _ & _ & Hm & _).
  split; [exact Hi|].
  destruct (Hm [node_42_line] eq_refl) as [Hn _].
  intros x' Hx'. apply (Hn 1%nat (imported_node 18 "PHI" "Node.018") x' eq_refl Hx').
  intros ln [<-|[]]. vm_compute. discriminate.
Defined.

End LabelFacts.

Module MovLoopFacts.

Import MovPaths.
Local Open Scope Q_scope.

Lemma combine_self {A} (l : list A) a b : In (a, b) (combine l l) -> a = b.
Proof.
  induction l as [|x l IH]; simpl; [intros []|].
  intros [E|H]; [injection E as -> ->; reflexivity|exact (IH H)].
Qed.



Lemma mov_interp_self frac a : Interp.vec_eq (Interp.mov_interp frac a a) a.
Proof.
  unfold Interp.vec_eq, Interp.mov_interp.
  induction a as [|x a IH]; simpl; constructor; [ring|exact IH].
Qed.

Section Facts.

Variable num_nodes : nat.
Variable freq : Q.
Variable anim_has first_calls : Q -> bool.
Variable set_obj_locrot_mov : list Q -> call_result.

Lemma mov_step_blend frame nskip st rows out nskip' st' rows' :
  Qle_bool freq 1 = false ->
  mov_step num_nodes freq anim_has set_obj_locrot_mov frame nskip st rows
    = Some (out, nskip', st', rows') ->
  first_is_second st' = true /\
  exists pairs, out = Blend (inject_Z (Qceiling frame) - frame) pairs /\
    (first_is_second st = true -> forall a b, In (a, b) pairs -> a = b).
Proof.
  intros Hf. unfold mov_step. rewrite Hf. cbv beta iota zeta. simpl negb.
  set (ns := ((Interp.py_int_of_q frame - Interp.py_int_of_q (frame - freq) - 2)
                * Z.of_nat num_nodes)%Z).
  destruct (if Z.leb 0 ns then _ else _) as [[st1 rows1]|] eqn:E1; [|discriminate].
  destruct (read_rows num_nodes rows1) as [[w rows2]|]; [|discriminate]. simpl.
  destruct (forallb _ _); [|discriminate].
  intros H. injection H as <- <- <- <-. split; [reflexivity|].
  eexists. split; [reflexivity|]. intros Hst a b Hin.
  assert (Hst1 : first_is_second st1 = true).
  { destruct (Z.leb 0 ns).
    - destruct (skip_rows _ rows) as [r|]; [|discriminate].
      destruct (read_rows num_nodes r) as [q|]; [|discriminate].
      injection E1 as <- _. unfold write_first. rewrite Hst. reflexivity.
    - injection E1 as <- _. exact Hst. }
  unfold first_mov in Hin. simpl in Hin. rewrite Hst1 in Hin. exact (combine_self _ _ _ Hin).
Qed.

(** Every frame of the loop blends with [frac = ceil(frame) - frame];
    once [first_mov] is [second_mov] the two rows of every pair are the
    same. *)
Lemma mov_loop_blend_pairs frames nskip st rows outs :
  Qle_bool freq 1 = false ->
  mov_loop num_nodes freq anim_has set_obj_locrot_mov frames nskip st rows = Some outs ->
  List.length outs = List.length frames /\
  forall k out, nth_error outs k = Some out ->
  exists frame pairs, nth_error frames k = Some frame /\
    out = Blend (inject_Z (Qceiling frame) - frame) pairs /\
    ((1 <= k)%nat \/ first_is_second st = true -> forall a b, In (a, b) pairs -> a = b).
Proof.
  intros Hf. revert nskip st rows outs.
  induction frames as [|frame frames IH]; intros nskip st rows outs H.
  - simpl in H. injection H as <-. split; [reflexivity|]. intros k out Hk. destruct k; discriminate.
  - simpl in H.
    destruct (mov_step num_nodes freq anim_has set_obj_locrot_mov frame nskip st rows)
      as [[[[o ns'] st'] rows']|] eqn:Es; [|discriminate].
    destruct (mov_loop num_nodes freq anim_has set_obj_locrot_mov frames ns' st' rows')
      as [outs'|] eqn:El; [|discriminate].
    injection H as <-.
    destruct (mov_step_blend _ _ _ _ _ _ _ _ Hf Es) as [Hst' [pairs [-> Hp]]].
    destruct (IH _ _ _ _ El) as [Hlen IHk].
    split; [simpl; rewrite Hlen; reflexivity|].
    intros k out Hk. destruct k as [|k].
    + simpl in Hk. injection Hk as <-. exists frame, pairs. split; [reflexivity|].
      split; [reflexivity|]. intros [Hk|Hst]; [lia|exact (Hp Hst)].
    + simpl in Hk. destruct (IHk k out Hk) as [frame' [pairs' [Hfr [Ho Hp']]]].
      exists frame', pairs'. split; [exact Hfr|]. split; [exact Ho|].
      intros _. apply Hp'. right. exact Hst'.
Qed.

Lemma set_motion_paths_mov_loop_blend start_skip frames rows outs :
  Qle_bool freq 1 = false ->
  set_motion_paths_mov_loop num_nodes freq anim_has first_calls set_obj_locrot_mov
    start_skip frames rows = Some outs ->
  List.length outs = List.length frames /\
  forall k out, nth_error outs k = Some out ->
  exists frame pairs, nth_error frames k = Some frame /\
    out = Blend (inject_Z (Qceiling frame) - frame) pairs /\
    ((1 <= k)%nat -> forall a b, In (a, b) pairs -> a = b).
Proof.
  intros Hf H. unfold set_motion_paths_mov_loop in H.
  destruct (skip_rows _ rows) as [r|]; [|discriminate].
  destruct (read_rows num_nodes r) as [[b0 r']|]; [|discriminate].
  destruct (forallb _ _); [|discriminate].
  destruct (mov_loop_blend_pairs _ _ _ _ _ Hf H) as [Hlen Hk].
  split; [exact Hlen|]. intros k out Ho.
  destruct (Hk k out Ho) as [frame [pairs [Hfr [Hout Hp]]]].
  exists frame, pairs. split; [exact Hfr|]. split; [exact Hout|].
  intros H1. apply Hp. left. exact H1.
Qed.



End Facts.

End MovLoopFacts.

Module InterpFacts.

Import Interp.

Local Open Scope Q_scope.

Lemma vec_eq_map_combine (f g : Q * Q -> Q) (a b : vec) :
  (forall x y, f (x, y) == g (x, y)) ->
  vec_eq (map f (combine a b)) (map g (combine a b)).
Proof.
  intros Hfg. revert b. induction a as [|x a IH]; intros [|y b]; simpl; constructor;
    [apply Hfg|apply IH].
Qed.

Lemma vec_eq_map_combine_l (f : Q * Q -> Q) (a b : vec) :
  List.length a = List.length b -> (forall x y, f (x, y) == x) ->
  vec_eq (map f (combine a b)) a.
Proof.
  intros Hl Hf. revert b Hl. induction a as [|x a IH]; intros [|y b] Hl; simpl in *;
    try discriminate; constructor; [apply Hf|apply IH; congruence].
Qed.

Lemma vec_eq_map_combine_r (f : Q * Q -> Q) (a b : vec) :
  List.length a = List.length b -> (forall x y, f (x, y) == y) ->
  vec_eq (map f (combine a b)) b.
Proof.
  intros Hl Hf. revert b Hl. induction a as [|x a IH]; intros [|y b] Hl; simpl in *;
    try discriminate; constructor; [apply Hf|apply IH; congruence].
Qed.

Lemma py_int_of_q_nonneg (x : Q) : 0 <= x -> py_int_of_q x = Qfloor x.
Proof.
  intros Hx. unfold py_int_of_q. apply Qle_bool_iff in Hx. rewrite Hx. reflexivity.
Qed.

Lemma frac_of_range (t : Q) : 0 <= frac_of t /\ frac_of t < 1.
Proof.
  unfold frac_of. split.
  - pose proof (Qle_ceiling t). apply (Qplus_le_l _ _ t). ring_simplify. assumption.
  - pose proof (Qceiling_lt t) as H. unfold Z.sub in H.
    rewrite inject_Z_plus, inject_Z_opp in H.
    apply (Qplus_lt_l _ _ (t - 1)). ring_simplify. ring_simplify in H. exact H.
Qed.

Lemma blend_row_self frac a : MovPaths.blend_row frac a a = mov_interp frac a a.
Proof. unfold MovPaths.blend_row. rewrite Nat.eqb_refl. reflexivity. Qed.

(** C3 (code bug): the formula [frac*s0 + (1-frac)*s1], written as
    [Vector.lerp(second, 1 - frac)], gives [s0] at [frac = 1], [s1] at
    [frac = 0] and a point strictly inside the segment in between, and
    [netcdf_helper] applies it to the samples at [floor(t)] and
    [ceil(t)] with [frac = ceil(t) - t], in [0, 1).  The [.mov] path of
    [set_motion_paths_mov] (no [.mod] file, [load_frequency > 1]) does
    not: from its second frame on, [first_mov] and [second_mov] are one
    list, so every node is set to [frac*x + (1-frac)*x = x], a raw row.
    With one node whose rows are [[1, 10*j]] for the timesteps [j]
    (the first block is the frame at [loop_start = 0], and frame [k] is
    timestep [k*load_frequency], as [mbs.simtime] records), and
    [load_frequency = 5/2], the frame at [t = 5/2] blends rows 1 and 2
    instead of the bracketing rows 2 and 3, and the frame at
    [t = 15/2] shows row 7 instead of the blend of rows 7 and 8. *)
Theorem c3_interp_weight_convention :
  (forall (frac : Q) (s0 s1 : vec), List.length s0 = List.length s1 ->
     exists r, lerp s0 s1 (1 - frac) = Some r /\
       vec_eq r (mov_interp frac s0 s1) /\
       (frac == 1 -> vec_eq r s0) /\
       (frac == 0 -> vec_eq r s1) /\
       (0 < frac < 1 -> exists lam, 0 < lam < 1 /\ vec_eq r (segment_point s0 s1 lam))) /\
  (forall (var : list vec) (fc : Z) (freq : Q) (s0 s1 : vec),
     0 <= tdx_of fc freq ->
     py_get var (Qfloor (tdx_of fc freq)) = Some s0 ->
     py_get var (Qceiling (tdx_of fc freq)) = Some s1 ->
     netcdf_helper var fc freq = lerp s0 s1 (1 - frac_of (tdx_of fc freq)) /\
     0 <= frac_of (tdx_of fc freq) < 1) /\
  (forall num_nodes freq anim_has first_calls locrot start_skip frames rows outs,
     1 < freq ->
     MovPaths.set_motion_paths_mov_loop num_nodes freq anim_has first_calls locrot
       start_skip frames rows = Some outs ->
     forall k out, nth_error outs k = Some out ->
     exists frame pairs, nth_error frames k = Some frame /\
       out = MovPaths.Blend (frac_of frame) pairs /\
       ((1 <= k)%nat -> forall a b, In (a, b) pairs ->
          vec_eq (MovPaths.blend_row (frac_of frame) a b) b)) /\
  (MovPaths.set_motion_paths_mov_loop 1 (5 # 2) (fun _ => true) (fun _ => true)
     (fun _ => MovPaths.Returns) 0%Z [5 # 2; 5 # 1; 15 # 2]
     [[1; 0]; [1; 10]; [1; 20]; [1; 30]; [1; 40]; [1; 50]; [1; 60]; [1; 70]; [1; 80]; [1; 90]]
   = Some [MovPaths.Blend (1 # 2) [([1; 10], [1; 20])];
           MovPaths.Blend 0 [([1; 50], [1; 50])];
           MovPaths.Blend (1 # 2) [([1; 70], [1; 70])]] /\
   ~ vec_eq (MovPaths.blend_row (1 # 2) [1; 10] [1; 20])
            (mov_interp (frac_of (5 # 2)) [1; 20] [1; 30]) /\
   ~ vec_eq (MovPaths.blend_row (1 # 2) [1; 70] [1; 70])
            (mov_interp (frac_of (15 # 2)) [1; 70] [1; 80])).
Proof.
  split; [|split; [|split]].
  - intros frac s0 s1 Hl. unfold lerp. rewrite Hl, Nat.eqb_refl. eexists. split; [reflexivity|].
    split; [apply vec_eq_map_combine; intros x y; ring|].
    split; [intros Hf; apply vec_eq_map_combine_l; [exact Hl|]; intros x y; rewrite Hf; ring|].
    split; [intros Hf; apply vec_eq_map_combine_r; [exact Hl|]; intros x y; rewrite Hf; ring|].
    intros [H0 H1]. exists (1 - frac). split.
    + split; [apply (Qplus_lt_l _ _ frac)|apply (Qplus_lt_l _ _ (frac - 1))];
        ring_simplify; assumption.
    + unfold segment_point. apply vec_eq_map_combine. intros x y. ring.
  - intros var fc freq s0 s1 Ht H0 H1. split; [|apply frac_of_range].
    unfold netcdf_helper. rewrite (py_int_of_q_nonneg _ Ht), H0, H1. reflexivity.
  - intros num_nodes freq anim_has first_calls locrot start_skip frames rows outs Hf H k out Hk.
    assert (Hb : Qle_bool freq 1 = false).
    { destruct (Qle_bool freq 1) eqn:E; [|reflexivity].
      apply Qle_bool_iff in E. exfalso. apply (Qlt_not_le _ _ Hf E). }
    destruct (MovLoopFacts.set_motion_paths_mov_loop_blend _ _ _ _ _ _ _ _ _ Hb H)
      as [_ Hall].
    destruct (Hall k out Hk) as [frame [pairs [Hfr [Ho Hp]]]].
    exists frame, pairs. split; [exact Hfr|]. split; [exact Ho|].
    intros H1 a b Hin. rewrite (Hp H1 a b Hin), blend_row_self.
    apply MovLoopFacts.mov_interp_self.
  - split; [vm_compute; reflexivity|]. split.
    + intros H. vm_compute in H. inversion H as [|? ? ? ? _ H2]; subst.
      inversion H2 as [|? ? ? ? H3 _]; subst. vm_compute in H3. discriminate.
    + intros H. vm_compute in H. inversion H as [|? ? ? ? _ H2]; subst.
      inversion H2 as [|? ? ? ? H3 _]; subst. vm_compute in H3. discriminate.
Qed.

Lemma c3_interp_weight_convention_witness :
  (exists r, lerp [0; 10] [4; 20] (1 - (1#4)) = Some r /\
             vec_eq r (mov_interp (1#4) [0; 10] [4; 20])) /\
  (netcdf_helper [[0; 10]; [4; 20]] 1 (3#4) =
     lerp [0; 10] [4; 20] (1 - frac_of (tdx_of 1 (3#4))) /\
   0 <= frac_of (tdx_of 1 (3#4)) < 1) /\
  vec_eq (MovPaths.blend_row (frac_of (15 # 2)) [1; 70] [1; 70]) [1; 70].
Proof.
  destruct c3_interp_weight_convention as [Hl [Hn [Hm _]]]. split; [|split].
  - destruct (Hl (1#4) [0; 10] [4; 20] eq_refl) as (r & Er & Hr & _). exists r. split; assumption.
  - apply (Hn [[0; 10]; [4; 20]] 1%Z (3#4) [0; 10] [4; 20]);
      vm_compute; [discriminate|reflexivity|reflexivity].
  - destruct (Hm 1%nat (5 # 2) (fun _ => true) (fun _ => true) (fun _ => MovPaths.Returns) 0%Z
                [5 # 2; 5 # 1; 15 # 2]
                [[1; 0]; [1; 10]; [1; 20]; [1; 30]; [1; 40]; [1; 50]; [1; 60]; [1; 70]; [1; 80]; [1; 90]]
                [MovPaths.Blend (1 # 2) [([1; 10], [1; 20])];
                 MovPaths.Blend 0 [([1; 50], [1; 50])];
                 MovPaths.Blend (1 # 2) [([1; 70], [1; 70])]]
                (ltac:(vm_compute; reflexivity)) (ltac:(vm_compute; reflexivity))
                2%nat _ eq_refl) as [frame [pairs [Hfr [Ho Hp]]]].
    simpl in Hfr. injection Hfr as <-.
    assert (Hpr : pairs = [([1; 70], [1; 70])]) by congruence. subst pairs.
    apply Hp; [lia|left; reflexivity].
Defined.

End InterpFacts.

Module SlerpFacts.

Import Slerp Samples.

Local Open Scope R_scope.

Lemma qdot_comm a b : qdot a b = qdot b a.
Proof. unfold qdot. ring. Qed.

Lemma qdot_scale_l s a b : qdot (qscale s a) b = s * qdot a b.
Proof. unfold qdot, qscale. simpl. ring. Qed.

Lemma qdot_scale_r s a b : qdot a (qscale s b) = s * qdot a b.
Proof. unfold qdot, qscale. simpl. ring. Qed.

Lemma qdot_add_l a b c : qdot (qadd a b) c = qdot a c + qdot b c.
Proof. unfold qdot, qadd. simpl. ring. Qed.

Lemma qdot_self_nonneg a : 0 <= qdot a a.
Proof. unfold qdot. nra. Qed.

Lemma normalize_qt_unit q : qdot (normalize_qt q) (normalize_qt q) = 1.
Proof.
  unfold normalize_qt. destruct (Req_EM_T (sqrt (qdot q q)) 0) as [E|E].
  - unfold qdot. simpl. ring.
  - rewrite qdot_scale_l, qdot_scale_r.
    assert (Hs : sqrt (qdot q q) * sqrt (qdot q q) = qdot q q)
      by (apply sqrt_sqrt, qdot_self_nonneg).
    rewrite <- Hs at 3. field. exact E.
Qed.

Lemma slerp_start_self a b : qdot (slerp_start a b) (slerp_start a b) = qdot a a.
Proof.
  unfold slerp_start. destruct (Rlt_dec (qdot a b) 0); [|reflexivity].
  unfold qneg. rewrite qdot_scale_l, qdot_scale_r. ring.
Qed.

Lemma slerp_start_abs r a b : Rabs (qdot r (slerp_start a b)) = Rabs (qdot r a).
Proof.
  unfold slerp_start. destruct (Rlt_dec (qdot a b) 0); [|reflexivity].
  unfold qneg. rewrite qdot_scale_r.
  replace (-1 * qdot r a) with (- qdot r a) by ring. apply Rabs_Ropp.
Qed.

Lemma slerp_start_shortest a b : 0 <= qdot (slerp_start a b) b.
Proof.
  unfold slerp_start. destruct (Rlt_dec (qdot a b) 0) as [H|H].
  - unfold qneg. rewrite qdot_scale_l. lra.
  - lra.
Qed.

Lemma interp_dot_slerp_half c : fst (interp_dot_slerp (1/2) c) = snd (interp_dot_slerp (1/2) c).
Proof.
  unfold interp_dot_slerp. destruct (Rlt_dec _ _); simpl.
  - replace (1 - 1/2) with (1/2) by field. reflexivity.
  - field.
Qed.

(** At [t = 1/2] the slerp of two unit quaternions is as close to one
    as to the other. *)
Lemma interp_qt_qtqt_half a b :
  qdot a a = 1 -> qdot b b = 1 ->
  quat_angle (interp_qt_qtqt a b (1/2)) a = quat_angle (interp_qt_qtqt a b (1/2)) b.
Proof.
  intros Ha Hb. unfold quat_angle, qnorm.
  rewrite Ha, Hb, sqrt_1, <- (slerp_start_abs _ a b).
  f_equal. f_equal. f_equal.
  unfold interp_qt_qtqt. rewrite interp_dot_slerp_half.
  set (w := snd (interp_dot_slerp (1/2) (qdot (slerp_start a b) b))).
  set (a' := slerp_start a b).
  assert (Ha' : qdot a' a' = 1) by (unfold a'; rewrite slerp_start_self; exact Ha).
  rewrite !qdot_add_l, !qdot_scale_l, Ha', Hb, (qdot_comm b a'). ring.
Qed.

Lemma Q2R_1 : Q2R 1 = 1.
Proof. unfold Q2R. simpl. rewrite Rinv_1. ring. Qed.

Lemma Q2R_0 : Q2R 0 = 0.
Proof. unfold Q2R. simpl. ring. Qed.

(** C4: on the MATRIX path, [netcdf_helper_quat] turns both bracketing
    matrices into unit quaternions, slerps from the earlier to the later
    one with parameter [1 - frac] (which [Quaternion.slerp] accepts, as
    [frac] lies in [0, 1)), after flipping the earlier one onto the
    later one's hemisphere; at [frac = 1/2] the result is at the same
    angle from both endpoint quaternions. *)
Theorem c4_matrix_slerp_midpoint (mat3_to_quat_raw : mat3 -> quat) (var : list mat3)
    (fc : Z) (freq : Q) (mA mB : mat3) (qa qb : quat) :
  Interp.py_get var (Interp.py_int_of_q (Interp.tdx_of fc freq)) = Some mA ->
  Interp.py_get var (Qceiling (Interp.tdx_of fc freq)) = Some mB ->
  qa = to_quaternion mat3_to_quat_raw (transposed mA) ->
  qb = to_quaternion mat3_to_quat_raw (transposed mB) ->
  qdot qa qa = 1 /\ qdot qb qb = 1 /\
  0 <= qdot (slerp_start qa qb) qb /\
  netcdf_helper_quat mat3_to_quat_raw var fc freq =
    Some (interp_qt_qtqt qa qb (Q2R (1 - Interp.frac_of (Interp.tdx_of fc freq)))) /\
  (Qeq (Interp.frac_of (Interp.tdx_of fc freq)) (1#2) ->
   exists r, netcdf_helper_quat mat3_to_quat_raw var fc freq = Some r /\
             quat_angle r qa = quat_angle r qb).
Proof.
  intros H1 H2 Ea Eb.
  assert (Ua : qdot qa qa = 1) by (subst qa; apply normalize_qt_unit).
  assert (Ub : qdot qb qb = 1) by (subst qb; apply normalize_qt_unit).
  set (frac := Interp.frac_of (Interp.tdx_of fc freq)).
  assert (Hn : netcdf_helper_quat mat3_to_quat_raw var fc freq =
               Some (interp_qt_qtqt qa qb (Q2R (1 - frac)))).
  { unfold netcdf_helper_quat. fold frac. rewrite H1, H2, <- Ea, <- Eb.
    destruct (InterpFacts.frac_of_range (Interp.tdx_of fc freq)) as [F0 F1]. fold frac in F0, F1.
    assert (T1 : Q2R (1 - frac) <= 1).
    { rewrite <- Q2R_1. apply Qle_Rle.
      apply (Qplus_le_l _ _ frac). ring_simplify. apply (Qplus_le_l _ _ (-1)).
      ring_simplify. exact F0. }
    assert (T0 : 0 <= Q2R (1 - frac)).
    { rewrite <- Q2R_0. apply Qle_Rle.
      apply (Qplus_le_l _ _ frac). ring_simplify. apply Qlt_le_weak. exact F1. }
    unfold quat_slerp.
    destruct (Rlt_dec 1 (Q2R (1 - frac))); [lra|].
    destruct (Rlt_dec (Q2R (1 - frac)) 0); [lra|]. reflexivity. }
  split; [exact Ua|]. split; [exact Ub|]. split; [apply slerp_start_shortest|].
  split; [exact Hn|].
  intros Hf. exists (interp_qt_qtqt qa qb (Q2R (1 - frac))). split; [exact Hn|].
  assert (Ht : Q2R (1 - frac) = 1/2).
  { rewrite (Qeq_eqR (1 - frac) (1#2)).
    - unfold Q2R. simpl. field.
    - rewrite Hf. reflexivity. }
  rewrite Ht. apply interp_qt_qtqt_half; assumption.
Qed.

Lemma c4_matrix_slerp_midpoint_witness :
  exists r, netcdf_helper_quat sample_mat3_to_quat_raw [rot_z_0; rot_z_90] 1 (1#2) = Some r /\
    quat_angle r (to_quaternion sample_mat3_to_quat_raw (transposed rot_z_0)) =
    quat_angle r (to_quaternion sample_mat3_to_quat_raw (transposed rot_z_90)).
Proof.
  destruct (c4_matrix_slerp_midpoint sample_mat3_to_quat_raw [rot_z_0; rot_z_90] 1%Z (1#2)
              rot_z_0 rot_z_90
              (to_quaternion sample_mat3_to_quat_raw (transposed rot_z_0))
              (to_quaternion sample_mat3_to_quat_raw (transposed rot_z_90)))
    as (_ & _ & _ & _ & Hh); [reflexivity|reflexivity|reflexivity|reflexivity|].
  apply Hh. vm_compute. reflexivity.
Defined.

End SlerpFacts.

Module PathFacts.

Import Paths.
Local Open Scope nat_scope.
Local Open Scope string_scope.

Lemma append_empty_r (s : string) : s ++ EmptyString = s.
Proof. induction s; simpl; congruence. Qed.

Lemma append_assoc (a b c : string) : a ++ (b ++ c) = (a ++ b) ++ c.
Proof. induction a; simpl; congruence. Qed.

Lemma length_app (a b : string) : String.length (a ++ b) = String.length a + String.length b.
Proof. induction a; simpl; congruence. Qed.

Lemma substring_0_length (s : string) : substring 0 (String.length s) s = s.
Proof. induction s; simpl; congruence. Qed.

Lemma substring_app_l (a b : string) : str_take (String.length a) (a ++ b) = a.
Proof. unfold str_take. induction a; simpl; [destruct b; reflexivity|congruence]. Qed.

Lemma substring_shift (a b : string) n :
  substring (String.length a) n (a ++ b) = substring 0 n b.
Proof. induction a; simpl; [reflexivity|exact IHa]. Qed.

Lemma substring_app_r (a b : string) : str_drop (String.length a) (a ++ b) = b.
Proof.
  unfold str_drop. rewrite length_app, substring_shift.
  replace (String.length a + String.length b - String.length a) with (String.length b) by lia.
  apply substring_0_length.
Qed.

Lemma last_char_cons c s : s <> EmptyString -> last_char (String c s) = last_char s.
Proof. destruct s; [congruence|reflexivity]. Qed.

Lemma last_char_app a b : b <> EmptyString -> last_char (a ++ b) = last_char b.
Proof.
  intros Hb. induction a as [|x a IH]; simpl; [reflexivity|].
  rewrite <- IH. apply last_char_cons. destruct a, b; simpl; congruence.
Qed.

Lemma has_sep_app_l a b : has_sep a = true -> has_sep (a ++ b) = true.
Proof. induction a; simpl; [discriminate|]. destruct (is_sep a); simpl; auto. Qed.

Lemma has_sep_app_r a b : has_sep b = true -> has_sep (a ++ b) = true.
Proof. induction a; simpl; [auto|]. intros H. rewrite (IHa H). apply orb_true_r. Qed.

Lemma has_sep_last s c : last_char s = Some c -> is_sep c = true -> has_sep s = true.
Proof.
  induction s as [|d s IH]; simpl; [discriminate|].
  destruct s as [|d' s']; intros E Hc.
  - injection E as ->. rewrite Hc. reflexivity.
  - rewrite (IH E Hc). apply orb_true_r.
Qed.

Lemma last_sep_end_nosep s k acc : has_sep s = false -> last_sep_end s k acc = acc.
Proof.
  revert k acc. induction s as [|c s IH]; intros k acc H; simpl in *; [reflexivity|].
  apply orb_false_elim in H as [Hc Hs]. rewrite Hc. apply IH, Hs.
Qed.

Lemma last_sep_end_app a b k acc :
  last_sep_end (a ++ b) k acc = last_sep_end b (k + String.length a) (last_sep_end a k acc).
Proof.
  revert k acc. induction a as [|c a IH]; intros k acc; simpl.
  - rewrite Nat.add_0_r. reflexivity.
  - rewrite IH. f_equal. lia.
Qed.

Lemma last_sep_end_last a c k acc :
  last_char a = Some c -> is_sep c = true -> last_sep_end a k acc = k + String.length a.
Proof.
  revert k acc. induction a as [|d a IH]; intros k acc E Hc; simpl in *; [discriminate|].
  destruct a as [|d' a'].
  - injection E as ->. rewrite Hc. simpl. lia.
  - rewrite (IH (S k) _ E Hc). simpl. lia.
Qed.

Lemma prefix_app a b c : prefix a b = true -> prefix a (b ++ c) = true.
Proof.
  revert b. induction a as [|x a IH]; intros b H.
  - destruct (b ++ c); reflexivity.
  - destruct b as [|y b]; simpl in H; [discriminate|]. simpl.
    destruct (ascii_dec x y); [apply IH, H|discriminate].
Qed.

Lemma prefix_app_inv a b c :
  prefix a (b ++ c) = true -> prefix a b = true \/ exists c', a = b ++ c'.
Proof.
  revert a. induction b as [|y b IH]; intros a H.
  - right. exists a. reflexivity.
  - destruct a as [|x a]; [left; reflexivity|].
    simpl in H. destruct (ascii_dec x y) as [->|]; [|discriminate].
    destruct (IH a H) as [Hp|[c' ->]].
    + left. simpl. destruct (ascii_dec y y); [exact Hp|congruence].
    + right. exists c'. reflexivity.
Qed.

Lemma prefix_split a b : prefix a b = true -> exists r, b = a ++ r.
Proof.
  revert b. induction a as [|x a IH]; intros b H.
  - exists b. reflexivity.
  - destruct b as [|y b]; simpl in H; [discriminate|].
    destruct (ascii_dec x y) as [->|]; [|discriminate].
    destruct (IH b H) as [r ->]. exists r. reflexivity.
Qed.

Lemma replace_from_skip_all old new s k :
  String.length s <= k -> replace_from old new s k = EmptyString.
Proof.
  revert k. induction s as [|c s IH]; intros k Hk; [reflexivity|].
  simpl in Hk. destruct k as [|k]; [lia|]. simpl. apply IH. lia.
Qed.

Section Replace.

Variables (name new : string).
Hypothesis name_nonempty : name <> EmptyString.
Hypothesis name_nosep : has_sep name = false.

(** No occurrence of [name] straddles a separator. *)
Lemma replace_from_app d k :
  (d = EmptyString /\ k = 0) \/
  ((exists c, last_char d = Some c /\ is_sep c = true) /\ k < String.length d) ->
  replace_from name new (d ++ name) k =
  replace_from name new d k ++ replace_from name new name 0.
Proof.
  revert k. induction d as [|c d IH]; intros k Hd.
  - destruct Hd as [[_ ->]|[_ Hk]]; [reflexivity|simpl in Hk; lia].
  - destruct Hd as [[Hd _]|[[e [He Hs]] Hk]]; [discriminate|].
    assert (Hd' : d <> EmptyString -> exists c, last_char d = Some c /\ is_sep c = true).
    { intros Hne. exists e. rewrite <- (last_char_cons c d Hne). auto. }
    assert (Hsep : has_sep (String c d) = true) by exact (has_sep_last _ _ He Hs).
    change (String c d ++ name) with (String c (d ++ name)). cbn [replace_from].
    destruct k as [|k].
    + destruct (prefix name (String c d)) eqn:Ep.
      * assert (Ep' : prefix name (String c (d ++ name)) = true)
          by exact (prefix_app _ _ name Ep).
        rewrite Ep'.
        destruct (prefix_split _ _ Ep) as [r Er].
        destruct r as [|x r].
        { exfalso. rewrite append_empty_r in Er. subst. congruence. }
        assert (Hl : String.length name < String.length (String c d)).
        { rewrite Er, length_app. simpl. lia. }
        destruct d as [|d0 d1].
        { exfalso. simpl in Hl. destruct name; [congruence|simpl in Hl; lia]. }
        rewrite <- append_assoc. f_equal. apply IH. right. split.
        -- apply Hd'. discriminate.
        -- simpl in Hl |- *. destruct name; simpl in *; lia.
      * destruct (prefix name (String c (d ++ name))) eqn:Ep2.
        { exfalso. destruct (prefix_app_inv _ (String c d) _ Ep2) as [H|[c' Ec]]; [congruence|].
          pose proof name_nosep as Hn. rewrite Ec, (has_sep_app_l _ _ Hsep) in Hn. discriminate. }
        simpl. f_equal. apply IH.
        destruct d as [|d0 d1]; [left; split; reflexivity|].
        right. split; [apply Hd'; discriminate|simpl; lia].
    + apply IH. destruct d as [|d0 d1]; [simpl in Hk; lia|].
      right. split; [apply Hd'; discriminate|simpl in *; lia].
Qed.

Lemma replace_from_self : replace_from name new name 0 = new.
Proof.
  destruct name as [|c r] eqn:En; [congruence|]. cbn [replace_from].
  assert (Hp : prefix (String c r) (String c r) = true)
    by (apply prefix_correct; apply substring_0_length).
  rewrite Hp. rewrite replace_from_skip_all by (simpl; lia).
  apply append_empty_r.
Qed.

Lemma replace_from_absent d :
  (forall m, substring m (String.length name) d <> name) ->
  replace_from name new d 0 = d.
Proof.
  induction d as [|c d IH]; intros H; [reflexivity|]. cbn [replace_from].
  destruct (prefix name (String c d)) eqn:Ep.
  - exfalso. apply (H 0). apply prefix_correct. exact Ep.
  - f_equal. apply IH. intros m. exact (H (S m)).
Qed.

Lemma replace_from_length_le s k :
  new = EmptyString -> String.length (replace_from name new s k) <= String.length s - k.
Proof.
  intros Hn. revert k. induction s as [|c s IH]; intros k; cbn [replace_from String.length]; [lia|].
  destruct k as [|k].
  - destruct (prefix name (String c s)); subst new; simpl.
    + specialize (IH (String.length name - 1)). lia.
    + specialize (IH 0). lia.
  - apply IH.
Qed.

Lemma replace_from_length_lt s k m :
  new = EmptyString -> substring m (String.length name) s = name -> k <= m ->
  String.length (replace_from name new s k) < String.length s - k.
Proof.
  intros Hn. revert k m. induction s as [|c s IH]; intros k m Hs Hk.
  - exfalso. apply name_nonempty. rewrite <- Hs. destruct m, (String.length name); reflexivity.
  - cbn [replace_from String.length]. destruct k as [|k].
    + destruct (prefix name (String c s)) eqn:Ep.
      * pose proof (replace_from_length_le s (String.length name - 1) Hn) as L.
        rewrite Hn in L |- *. simpl. lia.
      * destruct m as [|m].
        { exfalso. apply prefix_correct in Hs. congruence. }
        simpl. specialize (IH 0 m Hs (Nat.le_0_l _)). lia.
    + destruct m as [|m]; [lia|]. apply (IH k m Hs). lia.
Qed.

End Replace.

Lemma substring_0_0 (s : string) : substring 0 0 s = EmptyString.
Proof. destruct s; reflexivity. Qed.

Lemma norm_sep_char c :
  (if Ascii.eqb c "/"%char then "\"%char else c) = "\"%char -> is_sep c = true.
Proof.
  unfold is_sep. destruct (Ascii.eqb c "/"%char) eqn:E.
  - rewrite orb_true_r. reflexivity.
  - intros ->. reflexivity.
Qed.

Lemma splitdrive_plain p :
  (forall c0 c1 rest, p = String c0 (String c1 rest) ->
     (is_sep c0 && is_sep c1) = false /\ c1 <> ":"%char) ->
  splitdrive p = (EmptyString, p).
Proof.
  intros H. unfold splitdrive.
  destruct p as [|c0 [|c1 rest]]; try reflexivity.
  destruct (H c0 c1 rest eq_refl) as [Hs Hc].
  cbn [String.length Nat.leb norm_seps]. unfold str_take. cbn [substring].
  rewrite !substring_0_0.
  match goal with |- context [String.eqb ?x "\\"] => destruct (String.eqb x "\\") eqn:E1 end.
  - exfalso. apply String.eqb_eq in E1. injection E1 as E0 E1'.
    apply norm_sep_char in E0. apply norm_sep_char in E1'. rewrite E0, E1' in Hs. discriminate.
  - cbn [andb].
    match goal with |- context [String.eqb ?x ":"] => destruct (String.eqb x ":") eqn:E2 end;
      [|reflexivity].
    exfalso. apply String.eqb_eq in E2. injection E2 as E2.
    destruct (Ascii.eqb c1 "/"%char); [discriminate|]. congruence.
Qed.

Lemma last_sep_end_dir_name dir name :
  (dir = EmptyString \/ exists c, last_char dir = Some c /\ is_sep c = true) ->
  has_sep name = false ->
  last_sep_end (dir ++ name) 0 0 = String.length dir.
Proof.
  intros Hd Hn. rewrite last_sep_end_app, last_sep_end_nosep by exact Hn.
  destruct Hd as [->|[c [Hc Hs]]]; [reflexivity|].
  exact (last_sep_end_last dir c 0 0 Hc Hs).
Qed.

Lemma py_replace_nonempty s old new :
  old <> EmptyString -> py_replace s old new = replace_from old new s 0.
Proof. destruct old; [congruence|reflexivity]. Qed.

Lemma py_replace_dir_name dir name :
  (dir = EmptyString \/ exists c, last_char dir = Some c /\ is_sep c = true) ->
  name <> EmptyString -> has_sep name = false ->
  py_replace (dir ++ name) name EmptyString = py_replace dir name EmptyString.
Proof.
  intros Hd Hne Hn. rewrite !py_replace_nonempty by exact Hne.
  rewrite (replace_from_app name EmptyString Hne Hn dir 0).
  - rewrite (replace_from_self name EmptyString Hne Hn). apply append_empty_r.
  - destruct Hd as [->|[c [Hc Hs]]]; [left; split; reflexivity|right].
    split; [exists c; split; assumption|].
    destruct dir; [discriminate|simpl; lia].
Qed.

(** Extra property (path_leaf): for a path made of a directory part [dir]
    (empty or ending with a separator) and a file name [name] free of
    separators, with no drive or UNC prefix, [path_leaf] returns as leaf
    the name (without its extension unless [keep_extension]) and as
    directory what is left of [dir] once every occurrence of [name] in
    [dir] has been removed. *)
Theorem path_leaf_dir_name dir name keep :
  (dir = EmptyString \/ exists c, last_char dir = Some c /\ is_sep c = true) ->
  name <> EmptyString -> has_sep name = false ->
  (forall c0 c1 rest, dir ++ name = String c0 (String c1 rest) ->
     (is_sep c0 && is_sep c1) = false /\ c1 <> ":"%char) ->
  path_leaf (dir ++ name) keep =
  (py_replace dir name EmptyString, if keep then name else fst (splitext name)).
Proof.
  intros Hd Hne Hn Hp. unfold path_leaf, ntsplit.
  rewrite (splitdrive_plain _ Hp), (last_sep_end_dir_name _ _ Hd Hn).
  rewrite substring_app_l, substring_app_r.
  rewrite <- (py_replace_dir_name dir name Hd Hne Hn).
  destruct name as [|c n']; [congruence|].
  destruct keep; reflexivity.
Qed.

(** Extra property (path_leaf): under the same conditions the directory
    [path_leaf] returns is [dir] exactly when [name] does not occur in
    [dir]; otherwise it is strictly shorter. *)
Theorem path_leaf_dir_intact dir name keep :
  (dir = EmptyString \/ exists c, last_char dir = Some c /\ is_sep c = true) ->
  name <> EmptyString -> has_sep name = false ->
  (forall c0 c1 rest, dir ++ name = String c0 (String c1 rest) ->
     (is_sep c0 && is_sep c1) = false /\ c1 <> ":"%char) ->
  (fst (path_leaf (dir ++ name) keep) = dir <->
   forall m, substring m (String.length name) dir <> name) /\
  ((exists m, substring m (String.length name) dir = name) ->
   String.length (fst (path_leaf (dir ++ name) keep)) < String.length dir).
Proof.
  intros Hd Hne Hn Hp.
  rewrite (path_leaf_dir_name dir name keep Hd Hne Hn Hp). simpl fst.
  rewrite py_replace_nonempty by exact Hne.
  assert (Hlt : (exists m, substring m (String.length name) dir = name) ->
            String.length (replace_from name EmptyString dir 0) < String.length dir).
  { intros [m Hm]. pose proof (replace_from_length_lt name EmptyString Hne dir 0 m eq_refl Hm
      (Nat.le_0_l _)). lia. }
  split; [split|exact Hlt].
  - intros E m Hm. apply (Nat.lt_irrefl (String.length dir)).
    rewrite <- E at 1. apply Hlt. exists m. exact Hm.
  - apply replace_from_absent; assumption.
Qed.

Lemma path_leaf_dir_name_witness :
  path_leaf ("/data/x.mov/" ++ "x.mov") false = ("/data//", "x").
Proof.
  rewrite (path_leaf_dir_name "/data/x.mov/" "x.mov" false).
  - vm_compute. reflexivity.
  - right. exists "/"%char. split; reflexivity.
  - discriminate.
  - reflexivity.
  - intros c0 c1 rest E. injection E as <- <- _. split; [reflexivity|discriminate].
Defined.

Lemma path_leaf_dir_intact_witness :
  String.length (fst (path_leaf ("/data/x.mov/" ++ "x.mov") true)) <
  String.length "/data/x.mov/".
Proof.
  refine (proj2 (path_leaf_dir_intact "/data/x.mov/" "x.mov" true _ _ _ _) _).
  - right. exists "/"%char. split; reflexivity.
  - discriminate.
  - reflexivity.
  - intros c0 c1 rest E. injection E as <- <- _. split; [reflexivity|discriminate].
  - exists 6. reflexivity.
Defined.

End PathFacts.

Module SetupFacts.

Import Paths.

(** Extra property (setup_import, file_len): for a file name not ending
    in ["nc"], [setup_import] raises exactly when the file does not
    exist or cannot be opened or read (other than being a directory),
    never reports [FILE_ERROR] (the count of [file_len] is never
    negative), records the number of lines of the file as [num_rows]
    (0 for an empty file or a directory), turns [use_netcdf] off and
    stores the two parts [path_leaf] returns. *)
Theorem setup_import_text_file g filepath f st :
  String.eqb (py_slice_from filepath (-2)) "nc" = false ->
  (setup_import g filepath f st = None <-> f = NoFile \/ f = Unreadable) /\
  (forall r, setup_import g filepath f st = Some r ->
     fst r = SETUP_FINISHED /\ use_netcdf (snd r) = false /\
     (file_path (snd r), file_basename (snd r)) = path_leaf filepath false /\
     num_rows (snd r) = match f with TextFile ls => Z.of_nat (List.length ls) | _ => 0%Z end).
Proof.
  intros Hnc. unfold setup_import.
  destruct (path_leaf filepath false) as [fp bn]. rewrite Hnc.
  destruct f as [| | |[|x ls]]; unfold file_len; cbv beta iota.
  - split; [split; [left; reflexivity|reflexivity]|intros r Hr; discriminate].
  - split; [split; [discriminate|intros [H|H]; discriminate]|].
    intros r Hr. injection Hr as <-. split; [reflexivity|split; [reflexivity|split; [reflexivity|reflexivity]]].
  - split; [split; [right; reflexivity|reflexivity]|intros r Hr; discriminate].
  - split; [split; [discriminate|intros [H|H]; discriminate]|].
    intros r Hr. injection Hr as <-. split; [reflexivity|split; [reflexivity|split; [reflexivity|reflexivity]]].
  - match goal with |- context [(?n <? 0)%Z] =>
      assert (E : (n <? 0)%Z = false) by (apply Z.ltb_ge; rewrite Z.sub_add; apply Nat2Z.is_nonneg); rewrite E end.
    split; [split; [discriminate|intros [H|H]; discriminate]|].
    intros r Hr. injection Hr as <-. split; [reflexivity|split; [reflexivity|split; [reflexivity|]]].
    change (Z.of_nat (List.length (x :: ls)) - 1 + 1 = Z.of_nat (List.length (x :: ls)))%Z.
    apply Z.sub_add.
Qed.

Lemma setup_import_text_file_witness :
  exists r,
  setup_import (fun _ _ => None) "/home/u/run.mov" (TextFile ["a"; "b"; "c"])
    (mkSetup EmptyString EmptyString true 0) = Some r /\
  fst r = SETUP_FINISHED /\ num_rows (snd r) = 3%Z.
Proof.
  exists (SETUP_FINISHED, mkSetup "/home/u/" "run" false 3).
  assert (Hr : setup_import (fun _ _ => None) "/home/u/run.mov" (TextFile ["a"; "b"; "c"])
    (mkSetup EmptyString EmptyString true 0) = Some (SETUP_FINISHED, mkSetup "/home/u/" "run" false 3))
    by (vm_compute; reflexivity).
  split; [exact Hr|].
  destruct (proj2 (setup_import_text_file (fun _ _ => None) "/home/u/run.mov"
    (TextFile ["a"; "b"; "c"]) (mkSetup EmptyString EmptyString true 0) eq_refl) _ Hr)
    as [H1 [_ [_ H4]]].
  split; [exact H1|exact H4].
Defined.

End SetupFacts.

Module ModalFacts.

Import Misc.

Lemma modes_loop_skip first pre rest n :
  (forall rw, In rw pre -> exists m g, rw = m :: g /\ m <> first) ->
  modes_loop first (List.app pre rest) n = modes_loop first rest (n + Z.of_nat (List.length pre)).
Proof.
  revert n. induction pre as [|rw pre IH]; intros n H; simpl.
  - rewrite Z.add_0_r. reflexivity.
  - destruct (H rw (or_introl eq_refl)) as [m [g [-> Hm]]]. simpl.
    apply String.eqb_neq in Hm. rewrite Hm.
    rewrite IH by (intros r Hr; apply H; right; exact Hr). f_equal. lia.
Qed.

(** Extra property (number_modal_modes): when the first row starts with
    [first] and the rows [pre] after it start with other modes, the
    count is [1 + len(pre)], whether the file ends there or goes on with
    a row of mode [first] (whatever follows that row); an empty row met
    before the repetition makes [rw_mod[0]] raise. *)
Theorem number_modal_modes_count first f pre :
  (forall rw, In rw pre -> exists m g, rw = m :: g /\ m <> first) ->
  number_modal_modes (Some ((first :: f) :: pre)) = Some (1 + Z.of_nat (List.length pre))%Z /\
  (forall g post,
     number_modal_modes (Some ((first :: f) :: List.app pre ((first :: g) :: post))) =
     Some (1 + Z.of_nat (List.length pre))%Z) /\
  (forall post,
     number_modal_modes (Some ((first :: f) :: List.app pre ([] :: post))) = None).
Proof.
  intros H. unfold number_modal_modes. simpl py_index. cbv beta iota.
  split; [|split].
  - rewrite <- (List.app_nil_r pre), (modes_loop_skip first pre [] 1 H), List.app_nil_r.
    reflexivity.
  - intros g post. rewrite (modes_loop_skip first pre _ 1 H). simpl.
    rewrite String.eqb_refl. reflexivity.
  - intros post. rewrite (modes_loop_skip first pre _ 1 H). reflexivity.
Qed.

Lemma number_modal_modes_count_witness :
  number_modal_modes (Some [["1"; "0.5"]; ["2"; "0.1"]; ["3"; "0.2"]; ["1"; "0.7"]]) = Some 3%Z.
Proof.
  refine (proj1 (proj2 (number_modal_modes_count "1" ["0.5"] [["2"; "0.1"]; ["3"; "0.2"]] _))
           ["0.7"] []).
  intros rw [<-|[<-|[]]]; do 2 eexists; split; try reflexivity; discriminate.
Defined.

End ModalFacts.

Module TimeFacts.

Import Misc.
Local Open Scope Q_scope.

Lemma Qle_bool_false a b : Qle_bool a b = false -> b < a.
Proof.
  intros H. apply Qnot_le_lt. intros Hle. apply Qle_bool_iff in Hle. congruence.
Qed.

(** Extra property (update_end_time): on the text backend the new end
    time never exceeds [num_timesteps * time_step] nor the old one, and
    an end time within that bound is kept. *)
Theorem update_end_time_clamp nct e N dt e' :
  update_end_time false nct e N dt = Some e' ->
  e' <= inject_Z N * dt /\ e' <= e /\ (e <= inject_Z N * dt -> e' = e).
Proof.
  unfold update_end_time. destruct (Qle_bool e (inject_Z N * dt)) eqn:E; simpl; intros H;
    injection H as <-.
  - apply Qle_bool_iff in E. split; [exact E|split; [apply Qle_refl|reflexivity]].
  - apply Qle_bool_false in E. split; [apply Qle_refl|split; [apply Qlt_le_weak, E|]].
    intros Hle. exfalso. apply (Qlt_not_le _ _ E Hle).
Qed.

Lemma update_end_time_clamp_witness :
  update_end_time false [] (12 # 1) 10%Z (1 # 1) = Some (10 # 1) /\ (10 # 1) <= inject_Z 10 * (1 # 1).
Proof.
  split; [reflexivity|].
  exact (proj1 (update_end_time_clamp [] (12 # 1) 10%Z (1 # 1) (10 # 1) eq_refl)).
Defined.

(** Extra property (update_start_time): on the text backend, with a
    positive time step, the new start time is below
    [num_timesteps * time_step] and not above the old one; a start time
    below the bound is kept; with no time step at all
    ([num_timesteps = 0]) a non-negative start time is moved to
    [-time_step]. *)
Theorem update_start_time_clamp nct s N dt s' :
  update_start_time false nct s N dt = Some s' -> 0 < dt ->
  s' < inject_Z N * dt /\ s' <= s /\ (s < inject_Z N * dt -> s' = s) /\
  (N = 0%Z -> 0 <= s -> s' == - dt).
Proof.
  unfold update_start_time. intros H Hdt.
  assert (Hm : inject_Z (N - 1) * dt == inject_Z N * dt - dt).
  { unfold Z.sub. rewrite inject_Z_plus, inject_Z_opp. ring. }
  destruct (Qle_bool (inject_Z N * dt) s) eqn:E; simpl in H; injection H as <-.
  - apply Qle_bool_iff in E. split; [|split; [|split]].
    + lra.
    + lra.
    + intros Hlt. exfalso. apply (Qlt_not_le _ _ Hlt E).
    + intros -> _. simpl. ring.
  - apply Qle_bool_false in E. split; [exact E|split; [apply Qle_refl|split; [intros _; reflexivity|]]].
    intros -> Hs. exfalso. assert (Hz : inject_Z 0 * dt == 0) by (unfold inject_Z; ring).
    apply (Qlt_not_le _ _ E). rewrite Hz. exact Hs.
Qed.

Lemma update_start_time_clamp_witness :
  update_start_time false [] (3 # 1) 0%Z (1 # 10) = Some (-1 # 10) /\ (-1 # 10) == - (1 # 10).
Proof.
  split; [reflexivity|].
  apply (update_start_time_clamp [] (3 # 1) 0%Z (1 # 10) (-1 # 10) eq_refl);
    [reflexivity|reflexivity|discriminate].
Defined.

(** Extra property (update_end_time, update_start_time): on the NetCDF
    backend an empty time variable makes both callbacks raise; otherwise
    the new end time exceeds the last time by at most [time_step] (for a
    non-negative step) and the new start time is not below the first
    time. *)
Theorem update_times_netcdf nct e s N dt :
  (nct = [] -> update_end_time true nct e N dt = None /\ update_start_time true nct s N dt = None) /\
  (0 <= dt -> forall e', update_end_time true nct e N dt = Some e' ->
     exists last, py_last nct = Some last /\ e' - last <= dt /\ e' <= e) /\
  (forall s', update_start_time true nct s N dt = Some s' ->
     exists t0, py_index nct 0 = Some t0 /\ t0 <= s' /\ s <= s').
Proof.
  split; [|split].
  - intros ->. split; reflexivity.
  - intros Hdt e' Hr. unfold update_end_time in Hr.
    destruct (py_last nct) as [last|]; [|discriminate].
    exists last. split; [reflexivity|].
    destruct (Qle_bool (e - last) dt) eqn:E; simpl in Hr; injection Hr as <-.
    + apply Qle_bool_iff in E. split; [exact E|apply Qle_refl].
    + apply Qle_bool_false in E. split; lra.
  - intros s' Hr. unfold update_start_time in Hr.
    destruct (py_index nct 0) as [t0|]; [|discriminate].
    exists t0. split; [reflexivity|].
    destruct (Qle_bool t0 s) eqn:E; simpl in Hr; injection Hr as <-.
    + apply Qle_bool_iff in E. split; [exact E|apply Qle_refl].
    + apply Qle_bool_false in E. split; [apply Qle_refl|lra].
Qed.

Lemma update_times_netcdf_witness :
  exists last, py_last [0; 1 # 2; 1] = Some last /\ 1 - last <= 1 # 10 /\ 1 <= 5 # 1.
Proof.
  apply (proj1 (proj2 (update_times_netcdf [0; 1 # 2; 1] (5 # 1) 0 10%Z (1 # 10))));
    reflexivity || (vm_compute; discriminate).
Defined.

End TimeFacts.

Module CompReprFacts.

Import Misc.
Local Open Scope nat_scope.

Lemma selected_from_some comps f mdx fuel :
  mdx + fuel <= List.length comps -> exists l, selected_from comps f mdx fuel = Some l.
Proof.
  revert mdx. induction fuel as [|fuel IH]; intros mdx H; simpl; [eexists; reflexivity|].
  destruct (nth_error comps mdx) as [b|] eqn:E.
  - destruct (IH (S mdx)) as [l Hl]; [lia|]. unfold py_index. rewrite E, Hl. eexists; reflexivity.
  - apply nth_error_None in E. lia.
Qed.

Lemma selected_from_nil comps f mdx fuel l :
  selected_from comps f mdx fuel = Some l ->
  (l = [] <-> forall i, mdx <= i < mdx + fuel -> nth_error comps i = Some false).
Proof.
  revert mdx l. induction fuel as [|fuel IH]; intros mdx l H; simpl in H.
  - injection H as <-. split; [intros _ i Hi; lia|reflexivity].
  - unfold py_index in H. destruct (nth_error comps mdx) as [b|] eqn:E; [|discriminate].
    destruct (selected_from comps f (S mdx) fuel) as [rest|] eqn:Er; [|discriminate].
    injection H as <-. specialize (IH (S mdx) rest Er).
    destruct b.
    + split; [discriminate|]. intros Hall. rewrite Hall in E by lia. discriminate.
    + rewrite IH. split.
      * intros Hall i Hi. destruct (Nat.eq_dec i mdx) as [->|]; [exact E|apply Hall; lia].
      * intros Hall i Hi. apply Hall. lia.
Qed.

Lemma selected_from_elems comps f mdx fuel l :
  selected_from comps f mdx fuel = Some l -> forall x, In x l -> exists i, x = f i.
Proof.
  revert mdx l. induction fuel as [|fuel IH]; intros mdx l H x Hx; simpl in H.
  - injection H as <-. destruct Hx.
  - unfold py_index in H. destruct (nth_error comps mdx) as [b|]; [|discriminate].
    destruct (selected_from comps f (S mdx) fuel) as [rest|] eqn:Er; [|discriminate].
    injection H as <-. destruct b.
    + destruct Hx as [<-|Hx]; [exists mdx; reflexivity|exact (IH _ _ Er x Hx)].
    + exact (IH _ _ Er x Hx).
Qed.

Lemma nat_digits_nonempty fuel n acc : acc <> EmptyString -> nat_digits fuel n acc <> EmptyString.
Proof.
  revert n acc. induction fuel as [|fuel IH]; intros n acc H; simpl; [exact H|].
  destruct (Nat.ltb n 10); [discriminate|]. apply IH. discriminate.
Qed.

Lemma py_str_Z_nonempty z : py_str_Z z <> EmptyString.
Proof.
  unfold py_str_Z. destruct (z <? 0)%Z; [discriminate|]. simpl.
  destruct (Nat.ltb (Z.to_nat (Z.abs z)) 10); [discriminate|]. apply nat_digits_nonempty. discriminate.
Qed.

Lemma py_join_empty sep l :
  (forall x, In x l -> x <> EmptyString) -> (py_join sep l = EmptyString <-> l = []).
Proof.
  intros H. destruct l as [|x l]; [split; reflexivity|].
  split; [|discriminate]. intros E. exfalso. apply (H x (or_introl eq_refl)).
  destruct l as [|y l]; simpl in E; [exact E|]. destruct x; [reflexivity|discriminate].
Qed.

Lemma bits_all_false_or_true (comps : list bool) n :
  n <= List.length comps ->
  (forall i, i < n -> nth_error comps i = Some false) \/
  (exists i, i < n /\ nth_error comps i = Some true).
Proof.
  induction n as [|n IH]; intros H; [left; intros i Hi; lia|].
  destruct IH as [Hall|[i [Hi Ht]]]; [lia| |right; exists i; split; [lia|exact Ht]].
  destruct (nth_error comps n) as [[|]|] eqn:E.
  - right. exists n. split; [lia|exact E].
  - left. intros i Hi. destruct (Nat.eq_dec i n) as [->|]; [exact E|apply Hall; lia].
  - apply nth_error_None in E. lia.
Qed.

(** Extra property (comp_repr): for a three-dimensional variable the
    function never returns a string: with no component selected among
    the first six (plot variable ending in ['R']) or nine it returns the
    empty list, and with one selected ['[' + comps + ']'] adds a string
    to a list and raises. *)
Theorem comp_repr_dim3 comps n m k pv c :
  9 <= List.length comps -> last_char pv = Some c ->
  (forall s, comp_repr comps [n; m; k] pv <> Some (RStr s)) /\
  (comp_repr comps [n; m; k] pv = Some (RList []) <->
   forall i, i < (if Ascii.eqb c "R"%char then 6 else 9) -> nth_error comps i = Some false) /\
  (comp_repr comps [n; m; k] pv = None <->
   exists i, i < (if Ascii.eqb c "R"%char then 6 else 9) /\ nth_error comps i = Some true).
Proof.
  intros Hlen Hc. unfold comp_repr. rewrite Hc. cbv beta iota zeta.
  set (dn := if Ascii.eqb c "R"%char then dims_names_sym else dims_names_full).
  assert (Hdn : List.length dn = if Ascii.eqb c "R"%char then 6 else 9)
    by (unfold dn; destruct (Ascii.eqb c "R"%char); reflexivity).
  destruct (selected_from_some comps (fun mdx => nth mdx dn EmptyString) 0 (List.length dn))
    as [l Hl]; [rewrite Hdn; destruct (Ascii.eqb c "R"%char); lia|].
  rewrite Hl. pose proof (selected_from_nil _ _ _ _ _ Hl) as Hnil. rewrite Hdn in Hnil.
  split; [|split].
  - intros s. destruct l; discriminate.
  - split.
    + intros H i Hi. destruct l; [|discriminate]. apply (proj1 Hnil eq_refl). lia.
    + intros Hall. destruct l as [|x l]; [reflexivity|]. exfalso.
      assert (Ee : x :: l = []) by (apply Hnil; intros i Hi; apply Hall; lia). discriminate.
  - split.
    + intros Hn. destruct l as [|x l]; [discriminate|].
      destruct (bits_all_false_or_true comps (if Ascii.eqb c "R"%char then 6 else 9))
        as [Hall|Hex]; [destruct (Ascii.eqb c "R"%char); lia| |exact Hex].
      exfalso. assert (Ee : x :: l = []) by (apply Hnil; intros i Hi; apply Hall; lia).
      discriminate.
    + intros [i [Hi Ht]]. destruct l as [|x l]; [|reflexivity].
      exfalso. assert (Hf : nth_error comps i = Some false)
        by (apply (proj1 Hnil eq_refl); lia).
      congruence.
Qed.

Lemma comp_repr_dim3_witness :
  comp_repr [false; true; false; false; false; false; false; false; false] [10; 3; 3]%Z
    "node.struct.1.R" = None /\
  comp_repr [false; false; false; false; false; false; true; false; false] [10; 3; 3]%Z
    "node.struct.1.R" = Some (RList []).
Proof.
  split.
  - apply (comp_repr_dim3 [false; true; false; false; false; false; false; false; false]
             10%Z 3%Z 3%Z "node.struct.1.R" "R"%char); [simpl; lia|reflexivity|].
    exists 1. split; [simpl; lia|reflexivity].
  - apply (comp_repr_dim3 [false; false; false; false; false; false; true; false; false]
             10%Z 3%Z 3%Z "node.struct.1.R" "R"%char); [simpl; lia|reflexivity|].
    intros i Hi. simpl in Hi. do 6 (destruct i as [|i]; [reflexivity|]). lia.
Defined.

(** Extra property (comp_repr): for a two-dimensional variable with
    [m] columns the result is a string, empty exactly when none of the
    first [m] components is selected and otherwise enclosed in
    brackets. *)
Theorem comp_repr_dim2 comps n m pv :
  Z.to_nat m <= List.length comps ->
  exists s, comp_repr comps [n; m] pv = Some (RStr s) /\
    (s = EmptyString <-> forall i, i < Z.to_nat m -> nth_error comps i = Some false) /\
    (s <> EmptyString -> exists j, j <> EmptyString /\ s = "[" ++ j ++ "]").
Proof.
  intros Hlen. unfold comp_repr.
  destruct (selected_from_some comps (fun mdx => py_str_Z (Z.of_nat mdx + 1)%Z) 0 (Z.to_nat m))
    as [l Hl]; [lia|].
  rewrite Hl. cbv beta iota zeta.
  pose proof (selected_from_nil _ _ _ _ _ Hl) as Hnil.
  assert (Hne : forall x, In x l -> x <> EmptyString).
  { intros x Hx. destruct (selected_from_elems _ _ _ _ _ Hl x Hx) as [i ->].
    apply py_str_Z_nonempty. }
  pose proof (py_join_empty "," l Hne) as Hj.
  destruct (String.eqb (py_join "," l) EmptyString) eqn:E.
  - apply String.eqb_eq in E. exists (py_join "," l). split; [rewrite E; reflexivity|].
    split; [|intros H; congruence].
    split; [intros _; intros i Hi; apply (proj1 Hnil (proj1 Hj E)); lia|intros _; exact E].
  - apply String.eqb_neq in E. exists ("[" ++ py_join "," l ++ "]"). split; [reflexivity|].
    split; [|intros _; exists (py_join "," l); split; [exact E|reflexivity]].
    split; [discriminate|]. intros Hall. exfalso. apply E, Hj, Hnil. intros i Hi. apply Hall. lia.
Qed.

Lemma comp_repr_dim2_witness :
  comp_repr [true; false; true; false; false; false; false; false; false] [10; 3]%Z "x" =
    Some (RStr "[1,3]") /\
  exists s, comp_repr [false; false; false; true; false; false; false; false; false] [10; 3]%Z "x" =
    Some (RStr s) /\ s = EmptyString.
Proof.
  split; [reflexivity|].
  destruct (comp_repr_dim2 [false; false; false; true; false; false; false; false; false]
              10%Z 3%Z "x") as [s [Hs [Hiff _]]]; [simpl; lia|].
  exists s. split; [exact Hs|]. apply Hiff. intros i Hi. simpl in Hi.
  do 3 (destruct i as [|i]; [reflexivity|]). lia.
Defined.

End CompReprFacts.

Module InputFileFacts.

Import Misc.

Section Loop.

Variable pf : string -> option Q.
Variables final_time ui_time : Q.

Lemma not_final_cons r rows : not_final (r :: rows) -> not_final rows.
Proof. intros H r' t g Hin. apply (H r' t g). right. exact Hin. Qed.

Lemma input_loop_skip pre rest f :
  not_final pre -> f <> "final" ->
  exists f', f' <> "final" /\
    input_loop pf (Some f) (List.app pre rest) final_time ui_time =
    input_loop pf (Some f') rest final_time ui_time.
Proof.
  revert f. induction pre as [|r pre IH]; intros f H Hf; [exists f; split; [exact Hf|reflexivity]|].
  simpl. destruct r as [|t g].
  - simpl. apply String.eqb_neq in Hf as Hf'. rewrite Hf'.
    apply IH; [exact (not_final_cons _ _ H)|exact Hf].
  - assert (Ht : strip t <> "final") by exact (H (t :: g) t g (or_introl eq_refl) eq_refl).
    simpl. apply String.eqb_neq in Ht as Ht'. rewrite Ht'.
    apply IH; [exact (not_final_cons _ _ H)|exact Ht].
Qed.

Lemma input_loop_no_final rows first :
  not_final rows -> (forall f, first = Some f -> f <> "final") ->
  input_loop pf first rows final_time ui_time = None.
Proof.
  revert first. induction rows as [|r rows IH]; intros first H Hf; [reflexivity|].
  simpl. destruct r as [|t g].
  - destruct first as [f|]; [|reflexivity].
    assert (Hf' := Hf f eq_refl). apply String.eqb_neq in Hf'. rewrite Hf'.
    apply IH; [exact (not_final_cons _ _ H)|exact Hf].
  - assert (Ht : strip t <> "final") by exact (H (t :: g) t g (or_introl eq_refl) eq_refl).
    apply String.eqb_neq in Ht as Ht'. rewrite Ht'.
    apply IH; [exact (not_final_cons _ _ H)|intros f E; injection E as <-; exact Ht].
Qed.

End Loop.

(** Extra property (parse_input_file): the first row whose first field,
    stripped, is ['final'] sets both [final_time] and [ui_time] to
    [float(rw[2][:-1])], or [final_time] to the old [ui_time] when that
    conversion fails; the rows before it only need a non-blank first
    row, and the rows after it are never read. *)
Theorem parse_input_file_final pf pre t0 g0 time post final_time ui_time :
  not_final pre ->
  match pre with [] :: _ => False | _ => True end ->
  strip t0 = "final" -> py_index (t0 :: g0) 2 = Some time ->
  parse_input_file pf (List.app pre ((t0 :: g0) :: post)) final_time ui_time =
  Some (match pf (drop_last time) with
        | Some t => (t, t)
        | None => (ui_time, ui_time)
        end).
Proof.
  intros Hpre Hfirst Ht0 Htime. unfold parse_input_file.
  assert (Hlast : forall f, input_loop pf (Some f) ((t0 :: g0) :: post) final_time ui_time =
            Some (match pf (drop_last time) with
                  | Some t => (t, t) | None => (ui_time, ui_time) end)).
  { intros f. simpl. rewrite Ht0. simpl. simpl in Htime. rewrite Htime.
    destruct (pf (drop_last time)); reflexivity. }
  destruct pre as [|[|t g] pre].
  - simpl. rewrite Ht0. simpl. simpl in Htime. rewrite Htime.
    destruct (pf (drop_last time)); reflexivity.
  - destruct Hfirst.
  - assert (Ht : strip t <> "final") by exact (Hpre (t :: g) t g (or_introl eq_refl) eq_refl).
    simpl. apply String.eqb_neq in Ht as Ht'. rewrite Ht'.
    destruct (input_loop_skip pf final_time ui_time pre ((t0 :: g0) :: post) (strip t)
                (not_final_cons _ _ Hpre) Ht) as [f' [_ ->]].
    apply Hlast.
Qed.

Lemma parse_input_file_final_witness :
  parse_input_file (fun s => option_map inject_Z (py_int s))
    [["#"; "x"]; []; ["final"; "time"; "12s"]; ["junk"]] 0 (5 # 1) = Some (12 # 1, 12 # 1).
Proof.
  apply (parse_input_file_final (fun s => option_map inject_Z (py_int s))
           [["#"; "x"]; []] "final" ["time"; "12s"] "12s" [["junk"]] 0 (5 # 1)).
  - intros r t g [<-|[<-|[]]] E; try discriminate; injection E as <- <-; vm_compute; discriminate.
  - exact I.
  - reflexivity.
  - reflexivity.
Defined.

(** Extra property (parse_input_file): a blank first row leaves [first]
    unbound and raises, and a file with no ['final'] row ends in an
    uncaught [StopIteration]. *)
Theorem parse_input_file_errors pf rows final_time ui_time :
  parse_input_file pf ([] :: rows) final_time ui_time = None /\
  (not_final rows -> parse_input_file pf rows final_time ui_time = None).
Proof.
  split; [reflexivity|].
  intros H. apply input_loop_no_final; [exact H|discriminate].
Qed.

Lemma parse_input_file_errors_witness :
  parse_input_file (fun s => option_map inject_Z (py_int s)) [["#"; "x"]; []; ["t"]] 0 1 = None.
Proof.
  apply (parse_input_file_errors (fun s => option_map inject_Z (py_int s))
           [["#"; "x"]; []; ["t"]] 0 1).
  intros r t g [<-|[<-|[<-|[]]]] E; try discriminate; injection E as <- <-; vm_compute; discriminate.
Defined.

End InputFileFacts.

Module NoOutputFacts.

Import LogParser.

Lemma mark_output_labels l ns :
  map node_int_label (mark_output l ns) = map node_int_label ns /\
  map node_name (mark_output l ns) = map node_name ns.
Proof.
  induction ns as [|n t [IH1 IH2]]; [split; reflexivity|]. simpl.
  destruct (Z.eqb (node_int_label n) l); simpl; [split; reflexivity|].
  rewrite IH1, IH2. split; reflexivity.
Qed.

Lemma mark_output_spec l ns i n :
  NoDup (map node_int_label ns) -> nth_error ns i = Some n ->
  exists n', nth_error (mark_output l ns) i = Some n' /\
    node_int_label n' = node_int_label n /\ node_name n' = node_name n /\
    node_output n' = node_output n || Z.eqb (node_int_label n) l.
Proof.
  revert i. induction ns as [|m t IH]; intros i Hnd Hi; [destruct i; discriminate|].
  simpl in Hnd. inversion Hnd as [|? ? Hnotin Hnd']. subst.
  simpl. destruct (Z.eqb (node_int_label m) l) eqn:E.
  - destruct i as [|i]; simpl in Hi.
    + injection Hi as <-. eexists. split; [reflexivity|]. simpl. rewrite E, orb_true_r.
      split; [reflexivity|split; reflexivity].
    + exists n. split; [exact Hi|split; [reflexivity|split; [reflexivity|]]].
      destruct (Z.eqb (node_int_label n) l) eqn:E2; [|rewrite orb_false_r; reflexivity].
      exfalso. apply Hnotin. apply Z.eqb_eq in E. apply Z.eqb_eq in E2. rewrite E, <- E2.
      apply in_map. apply nth_error_In with i. exact Hi.
  - destruct i as [|i]; simpl in Hi.
    + injection Hi as <-. exists m. rewrite E, orb_false_r. split; [reflexivity|auto].
    + exact (IH i Hnd' Hi).
Qed.

Lemma mark_all_spec ls ns i n :
  NoDup (map node_int_label ns) -> nth_error ns i = Some n ->
  exists n', nth_error (mark_all ls ns) i = Some n' /\
    node_int_label n' = node_int_label n /\ node_name n' = node_name n /\
    node_output n' = node_output n || existsb (Z.eqb (node_int_label n)) ls.
Proof.
  unfold mark_all. revert ns n. induction ls as [|l ls IH]; intros ns n Hnd Hi.
  - exists n. simpl. rewrite orb_false_r. auto.
  - simpl. destruct (mark_output_spec l ns i n Hnd Hi) as [n1 [H1 [L1 [N1 O1]]]].
    assert (Hnd1 : NoDup (map node_int_label (mark_output l ns)))
      by (rewrite (proj1 (mark_output_labels l ns)); exact Hnd).
    destruct (IH _ n1 Hnd1 H1) as [n2 [H2 [L2 [N2 O2]]]].
    exists n2. split; [exact H2|]. rewrite L2, N2, O2, O1, L1. split; [reflexivity|split; [exact N1|]].
    rewrite orb_assoc. reflexivity.
Qed.

Lemma no_output_loop_block cur f pre ls rw post ns :
  Forall2 (fun r l => row_label r = Some l /\ l <> f) pre ls ->
  row_label rw = Some f ->
  no_output_loop cur f (List.app pre (rw :: post)) ns = Some (mark_all (cur :: ls) ns).
Proof.
  intros H Hrw. revert cur ns. induction H as [|r l pre ls [Hr Hl] _ IH]; intros cur ns; simpl.
  - rewrite Hrw, Z.eqb_refl. reflexivity.
  - rewrite Hr. apply Z.eqb_neq in Hl. rewrite Hl. apply IH.
Qed.

Lemma no_output_loop_eof cur f pre ls ns :
  Forall2 (fun r l => row_label r = Some l /\ l <> f) pre ls ->
  no_output_loop cur f pre ns = Some (mark_all (cur :: ls) ns).
Proof.
  intros H. revert cur ns. induction H as [|r l pre ls [Hr Hl] _ IH]; intros cur ns; simpl.
  - reflexivity.
  - rewrite Hr. apply Z.eqb_neq in Hl. rewrite Hl. apply IH.
Qed.

(** Extra property (no_output): on the text backend, with the first
    [.mov] row for node [f] followed by rows for the nodes [ls] (all
    other than [f]), [no_output] marks exactly the nodes whose label is
    [f] or in [ls] (the labels being distinct) and changes nothing else
    in their names and labels, whether the file ends there or goes on
    with a row for [f] (the rows after it are never read). *)
Theorem no_output_mov_first_block rw0 f pre ls post nodes :
  row_label rw0 = Some f ->
  Forall2 (fun r l => row_label r = Some l /\ l <> f) pre ls ->
  NoDup (map node_int_label nodes) ->
  (forall rw, row_label rw = Some f ->
     no_output_mov (Some (rw0 :: List.app pre (rw :: post))) nodes = Some (mark_all (f :: ls) nodes)) /\
  no_output_mov (Some (rw0 :: pre)) nodes = Some (mark_all (f :: ls) nodes) /\
  (forall i n, nth_error nodes i = Some n ->
     exists n', nth_error (mark_all (f :: ls) nodes) i = Some n' /\
       node_int_label n' = node_int_label n /\ node_name n' = node_name n /\
       node_output n' = node_output n || existsb (Z.eqb (node_int_label n)) (f :: ls)).
Proof.
  intros H0 Hpre Hnd. split; [|split].
  - intros rw Hrw. unfold no_output_mov. rewrite H0. exact (no_output_loop_block _ _ _ _ _ _ _ Hpre Hrw).
  - unfold no_output_mov. rewrite H0. exact (no_output_loop_eof _ _ _ _ _ Hpre).
  - intros i n Hi. exact (mark_all_spec _ _ _ _ Hnd Hi).
Qed.

Lemma no_output_mov_first_block_witness :
  no_output_mov (Some [["17"; "0"]; ["18"; "0"]; ["17"; "1"]; ["x"]]) Samples.label_nodes =
    Some (mark_all [17; 18]%Z Samples.label_nodes) /\
  map node_output (mark_all [17; 18]%Z Samples.label_nodes) = [true; true].
Proof.
  split; [|vm_compute; reflexivity].
  refine (proj1 (no_output_mov_first_block ["17"; "0"] 17%Z [["18"; "0"]] [18%Z] [["x"]]
                   Samples.label_nodes eq_refl _ _) ["17"; "1"] eq_refl).
  - constructor; [split; [reflexivity|discriminate]|constructor].
  - vm_compute. constructor; [intros [H|[]]; discriminate|constructor; [intros []|constructor]].
Defined.

End NoOutputFacts.

Module MovPathsFacts.

Import MovPaths MovLoopFacts.
Local Open Scope Q_scope.

Section Facts.

Variable num_nodes : nat.
Variable freq : Q.
Variable anim_has first_calls : Q -> bool.
Variable set_obj_locrot_mov : list Q -> call_result.

(** Extra property (set_motion_paths_mov): with [load_frequency > 1]
    every frame blends two rows per node, and from the second frame on
    the two rows of every blend are the same row: after
    [first_mov = second_mov] both names share one list, the rows read
    into [first_mov] are overwritten by those read into [second_mov],
    and [frac * x + (1 - frac) * x] is just the later row. *)
Theorem set_motion_paths_mov_blend_degenerate start_skip frames rows outs :
  Qle_bool freq 1 = false ->
  set_motion_paths_mov_loop num_nodes freq anim_has first_calls set_obj_locrot_mov
    start_skip frames rows = Some outs ->
  forall k out, nth_error outs k = Some out ->
  exists frac pairs, out = Blend frac pairs /\
    ((1 <= k)%nat -> forall a b, In (a, b) pairs -> a = b).
Proof.
  intros Hf H k out Hk.
  destruct (set_motion_paths_mov_loop_blend _ _ _ _ _ _ _ _ _ Hf H) as [_ Hb].
  destruct (Hb k out Hk) as [frame [pairs [_ [Ho Hp]]]].
  exists (inject_Z (Qceiling frame) - frame), pairs. split; [exact Ho|exact Hp].
Qed.


End Facts.

Lemma set_motion_paths_mov_blend_degenerate_witness :
  set_motion_paths_mov_loop 1 (2 # 1) (fun _ => true) (fun _ => true) (fun _ => Returns)
    0%Z [2 # 1; 4 # 1] [[1; 0]; [1; 10]; [1; 20]; [1; 30]; [1; 40]; [1; 50]] =
    Some [Blend 0 [([1; 10], [1; 20])]; Blend 0 [([1; 40], [1; 40])]] /\
  exists frac pairs, Blend 0 [([1; 40], [1; 40])] = Blend frac pairs /\
    forall a b, In (a, b) pairs -> a = b.
Proof.
  split; [vm_compute; reflexivity|].
  destruct (set_motion_paths_mov_blend_degenerate 1 (2 # 1) (fun _ => true) (fun _ => true)
              (fun _ => Returns) 0%Z [2 # 1; 4 # 1]
              [[1; 0]; [1; 10]; [1; 20]; [1; 30]; [1; 40]; [1; 50]]
              [Blend 0 [([1; 10], [1; 20])]; Blend 0 [([1; 40], [1; 40])]]
              eq_refl (ltac:(vm_compute; reflexivity)) 1 _ eq_refl) as [frac [pairs [Ho Hp]]].
  exists frac, pairs. split; [exact Ho|]. apply Hp. lia.
Defined.


End MovPathsFacts.

Module RenderVarsFacts.

Import Misc.

Lemma active_object_rel_total b1 b2 : active_object_rel b1 b2 = Some (implb b1 b2).
Proof. destruct b1, b2; reflexivity. Qed.

Section Facts.

Variable obj_selected : string -> option bool.

Lemma scene_objs_none ed :
  scene_objs obj_selected ed = None <->
  exists e, In e ed /\ obj_selected (elem_blender_object e) = None.
Proof.
  induction ed as [|e ed IH]; simpl.
  - split; [discriminate|intros (e & [] & _)].
  - destruct (obj_selected (elem_blender_object e)) as [b|] eqn:Eo.
    + destruct (scene_objs obj_selected ed) as [so|] eqn:Es.
      * split; [discriminate|]. intros (e' & [<-|Hin] & He'); [congruence|].
        assert (Hn : Some so = None) by (apply IH; exists e'; split; assumption). discriminate.
      * split; [|reflexivity]. intros _.
        destruct (proj1 IH eq_refl) as (e' & Hin & He'). exists e'. split; [right|]; assumption.
    + split; [|reflexivity]. intros _. exists e. split; [left; reflexivity|exact Eo].
Qed.

Lemma scene_objs_in ed so :
  scene_objs obj_selected ed = Some so ->
  forall i, In i so <->
    exists e, In e ed /\ obj_selected (elem_blender_object e) = Some true /\
              i = py_str_Z (elem_int_label e).
Proof.
  revert so. induction ed as [|e ed IH]; intros so H i; simpl in H.
  - injection H as <-. split; [intros []|intros (e & [] & _)].
  - destruct (obj_selected (elem_blender_object e)) as [b|] eqn:Eo; [|discriminate].
    destruct (scene_objs obj_selected ed) as [so'|] eqn:Es; [|discriminate].
    injection H as <-. specialize (IH so' eq_refl i).
    destruct b.
    + simpl. split.
      * intros [<-|Hin]; [exists e; split; [left; reflexivity|split; [exact Eo|reflexivity]]|].
        destruct (proj1 IH Hin) as (e' & Hin' & He' & ->).
        exists e'. split; [right; exact Hin'|split; [exact He'|reflexivity]].
      * intros (e' & [<-|Hin'] & He' & ->); [left; reflexivity|].
        right. apply IH. exists e'. split; [exact Hin'|split; [exact He'|reflexivity]].
    + split.
      * intros Hin. destruct (proj1 IH Hin) as (e' & Hin' & He' & ->).
        exists e'. split; [right; exact Hin'|split; [exact He'|reflexivity]].
      * intros (e' & [<-|Hin'] & He' & ->); [congruence|].
        apply IH. exists e'. split; [exact Hin'|split; [exact He'|reflexivity]].
Qed.

End Facts.

(** Extra property (get_render_vars, active_object_rel): the function
    raises exactly when some element's object cannot be looked up (the
    list comprehension reads [bpy.data.objects[...].select] for every
    element); otherwise it lists, as [(name, name, "")], exactly the
    variables with a [units] attribute among ['m/s', 's', 'm', 'N',
    'Nm'] whose name, when it contains ['elem'], has a ['.']-separated
    part equal to the integer label of a selected element.
    [active_object_rel] is the implication here and never returns its
    implicit [None]. *)
Theorem get_render_vars_spec obj_selected vars ed :
  (get_render_vars obj_selected vars ed = None <->
   exists e, In e ed /\ obj_selected (elem_blender_object e) = None) /\
  (forall out, get_render_vars obj_selected vars ed = Some out ->
   forall n1 n2 n3, In (n1, n2, n3) out <->
     n2 = n1 /\ n3 = EmptyString /\
     exists v u, In v vars /\ var_name v = n1 /\ var_units v = Some u /\ In u render_units /\
       (py_contains "elem" n1 = true ->
        exists e i, In e ed /\ obj_selected (elem_blender_object e) = Some true /\
          In i (py_split_char "."%char n1) /\ i = py_str_Z (elem_int_label e))).
Proof.
  unfold get_render_vars. split.
  - rewrite <- (scene_objs_none obj_selected ed).
    destruct (scene_objs obj_selected ed); split; congruence.
  - intros out Hout n1 n2 n3.
    destruct (scene_objs obj_selected ed) as [so|] eqn:Es; [|discriminate].
    injection Hout as <-. rewrite in_map_iff. split.
    + intros (v & Ev & Hv). injection Ev as <- <- <-.
      rewrite !filter_In in Hv. destruct Hv as [[[Hin Hu1] Hu2] Ha].
      split; [reflexivity|]. split; [reflexivity|].
      destruct (var_units v) as [u|] eqn:Eu; [|discriminate].
      exists v, u. split; [exact Hin|]. split; [reflexivity|]. split; [exact Eu|].
      split; [change (existsb (String.eqb u) render_units = true) in Hu2;
              apply existsb_exists in Hu2 as (u' & Hu' & Eq);
              apply String.eqb_eq in Eq; subst u'; exact Hu'|].
      intros He. rewrite active_object_rel_total, He in Ha. simpl in Ha.
      destruct (existsb _ (py_split_char "."%char (var_name v))) eqn:Ex in Ha; [|discriminate].
      apply existsb_exists in Ex as (i & Hi & Hso).
      apply existsb_exists in Hso as (j & Hj & Eij). apply String.eqb_eq in Eij. subst j.
      destruct (proj1 (scene_objs_in _ _ _ Es i) Hj) as (e & He' & Hsel & ->).
      exists e, (py_str_Z (elem_int_label e)). split; [exact He'|]. split; [exact Hsel|].
      split; [exact Hi|reflexivity].
    + intros (-> & -> & v & u & Hin & Hn & Hu & Hr & Hel). exists v.
      split; [rewrite Hn; reflexivity|].
      rewrite !filter_In. rewrite Hu. split; [split; [split; [exact Hin|reflexivity]|]|].
      * change (existsb (String.eqb u) render_units = true).
        apply existsb_exists. exists u. split; [exact Hr|apply String.eqb_refl].
      * rewrite active_object_rel_total. unfold py_truthy.
        destruct (py_contains "elem" (var_name v)) eqn:Ec; [|reflexivity]. simpl.
        rewrite Hn in Ec. destruct (Hel Ec) as (e & i & He & Hsel & Hi & ->).
        replace (existsb _ (py_split_char "."%char (var_name v))) with true; [reflexivity|].
        symmetry. apply existsb_exists. exists (py_str_Z (elem_int_label e)). rewrite <- Hn in Hi.
        split; [exact Hi|]. apply existsb_exists. exists (py_str_Z (elem_int_label e)).
        split; [apply (proj2 (scene_objs_in _ _ _ Es _)); exists e; auto|apply String.eqb_refl].
Qed.

Lemma get_render_vars_spec_witness :
  get_render_vars (fun o => if String.eqb o "Beam.001" then Some true else Some false)
    [mkNcVar "elem.beam.1.F" (Some "N"); mkNcVar "elem.beam.2.F" (Some "N");
     mkNcVar "node.struct.1.X" (Some "m"); mkNcVar "time" None]
    [Samples.beam2_elem_sample 1 "Beam.001"; Samples.beam2_elem_sample 2 "Beam.002"]
  = Some [("elem.beam.1.F", "elem.beam.1.F", EmptyString);
          ("node.struct.1.X", "node.struct.1.X", EmptyString)] /\
  ~ In ("elem.beam.2.F", "elem.beam.2.F", EmptyString)
      [("elem.beam.1.F", "elem.beam.1.F", EmptyString);
       ("node.struct.1.X", "node.struct.1.X", EmptyString)].
Proof.
  assert (E : get_render_vars (fun o => if String.eqb o "Beam.001" then Some true else Some false)
    [mkNcVar "elem.beam.1.F" (Some "N"); mkNcVar "elem.beam.2.F" (Some "N");
     mkNcVar "node.struct.1.X" (Some "m"); mkNcVar "time" None]
    [Samples.beam2_elem_sample 1 "Beam.001"; Samples.beam2_elem_sample 2 "Beam.002"]
  = Some [("elem.beam.1.F", "elem.beam.1.F", EmptyString);
          ("node.struct.1.X", "node.struct.1.X", EmptyString)]) by (vm_compute; reflexivity).
  split; [exact E|]. intros Hin.
  apply (proj2 (get_render_vars_spec _ _ _) _ E) in Hin as (_ & _ & v & u & Hv & Hn & _ & _ & Hel).
  destruct (Hel (ltac:(vm_compute; reflexivity))) as (e & i & He & Hsel & Hi & ->).
  simpl in He. destruct He as [<-|[<-|[]]]; vm_compute in Hi, Hsel;
    [destruct Hi as [H|[H|[H|[H|[]]]]]; discriminate H|discriminate Hsel].
Defined.

End RenderVarsFacts.
